(** * gitty: the output parsers of [lib/parser.js]

    A shallow embedding of the parsing functions that gitty applies to the
    text printed by [git], together with the part of the JavaScript runtime
    they call ([String.prototype] methods, the three regular expressions that
    occur in the file, [JSON.parse], property assignment on a plain object).

    Conventions of the embedding:
    - a JavaScript string is a [string]; one [ascii] stands for one code unit,
      so the embedding covers texts whose code units are below 256;
    - [undefined] and [null] are explicit ([jsval], [option]);
    - a function that can throw returns a [result]; the exceptions are the
      ones the runtime raises ([TypeError], [SyntaxError]);
    - arrays are lists, loops that mutate an array thread it explicitly. *)

From Stdlib Require Import ZArith Ascii String List Bool Lia.
From stdpp Require Import gmap strings list.

Local Open Scope Z_scope.

(** ** Strings *)

Module JsString.

(** [mem c s]: the code unit [c] occurs in [s]. *)
Fixpoint mem (c : ascii) (s : string) : bool :=
  match s with
  | EmptyString => false
  | String x s' => Ascii.eqb x c || mem c s'
  end.

(** [startsWith s p]: [p] is a prefix of [s]. *)
Fixpoint startsWith (s p : string) {struct p} : bool :=
  match p with
  | EmptyString => true
  | String y p' =>
      match s with
      | EmptyString => false
      | String x s' => Ascii.eqb x y && startsWith s' p'
      end
  end.

(** Position of the first occurrence of [p] in [s], counted from [i]. *)
Fixpoint firstIndex (s p : string) (i : nat) : option nat :=
  if startsWith s p then Some i
  else match s with
       | EmptyString => None
       | String _ s' => firstIndex s' p (S i)
       end.

(** [s.indexOf(p)]: the position, or -1. *)
Definition indexOf (s p : string) : Z :=
  match firstIndex s p 0 with
  | Some i => Z.of_nat i
  | None => -1
  end.

(** [s.substring(a, b)]: both ends are clamped to [0, s.length] and
    swapped when [a > b]. *)
Definition clamp (s : string) (i : Z) : nat :=
  Z.to_nat (Z.min (Z.max i 0) (Z.of_nat (String.length s))).

Definition substring (s : string) (a b : Z) : string :=
  let i := clamp s a in
  let j := clamp s b in
  String.substring (Nat.min i j) (Nat.max i j - Nat.min i j) s.

(** [s.substring(a)]. *)
Definition substringFrom (s : string) (a : Z) : string :=
  substring s a (Z.of_nat (String.length s)).

(** [s.split(sep)] for a non-empty separator string.  [skip] counts the
    code units of a separator that are still to be passed over, [cur] is
    the piece being collected. *)
Fixpoint splitGo (sep s : string) (skip : nat) (cur : string) : list string :=
  match skip with
  | S k =>
      match s with
      | EmptyString => [cur]
      | String _ s' => splitGo sep s' k cur
      end
  | O =>
      match s with
      | EmptyString => [cur]
      | String c s' =>
          if startsWith s sep
          then cur :: splitGo sep s' (String.length sep - 1) ""
          else splitGo sep s' 0 (cur +:+ String c "")
      end
  end.

Definition split (s sep : string) : list string := splitGo sep s 0 "".

(** White space and line terminators removed by [trim], among the code
    units below 256: TAB, LF, VT, FF, CR, SP, NBSP. *)
Definition isWhiteSpace (c : ascii) : bool :=
  let n := N_of_ascii c in
  ((9 <=? n) && (n <=? 13) || (n =? 32) || (n =? 160))%N.

Fixpoint trimStart (s : string) : string :=
  match s with
  | EmptyString => EmptyString
  | String c s' => if isWhiteSpace c then trimStart s' else s
  end.

Fixpoint trimEnd (s : string) : string :=
  match s with
  | EmptyString => EmptyString
  | String c s' =>
      match trimEnd s' with
      | EmptyString => if isWhiteSpace c then EmptyString else String c EmptyString
      | t => String c t
      end
  end.

Definition trim (s : string) : string := trimEnd (trimStart s).

End JsString.

Import JsString.

(** Code units named in the source. *)
Definition LF : string := String "010" "".
Definition CR : string := String "013" "".
Definition TAB : string := String "009" "".
Definition CRLF : string := CR +:+ LF.

(** ** Values and outcomes *)

(** A value that is a string or [undefined]. *)
Inductive jsval : Type :=
| undefined
| str (s : string).

(** Exceptions.  [TypeError] and [SyntaxError] are the ones the runtime
    raises in this file; [ParseError] is the typed failure the design
    document speaks of: no statement of [lib/parser.js] constructs it. *)
Inductive error : Type :=
| TypeError
| SyntaxError
| ParseError.

Inductive result (A : Type) : Type :=
| Return (a : A)
| Throw (e : error).
Arguments Return {A} a.
Arguments Throw {A} e.

Definition bind {A B : Type} (m : result A) (f : A -> result B) : result B :=
  match m with
  | Return a => f a
  | Throw e => Throw e
  end.

Notation "'let*' x ':=' m 'in' k" := (bind m (fun x => k))
  (at level 10, x name, m at level 100, k at level 200).

(** [a[i]] on an array: [undefined] outside the array. *)
Definition at_index (a : list string) (i : nat) : jsval :=
  match nth_error a i with
  | Some s => str s
  | None => undefined
  end.

(** ** Regular expressions

    The fragment of the pattern language that [lib/parser.js] uses: literal
    code units, classes, concatenation, a lazy star and a greedy plus over a
    class, an optional literal, one capture group.  Matching is the
    backtracking search of the language definition, written with a
    continuation: the first alternative that lets the rest of the pattern
    match wins. *)

Module Regex.

Inductive regex : Type :=
| Lit (c : ascii)
| Class (p : ascii -> bool)
| Cat (r1 r2 : regex)
| LazyStar (p : ascii -> bool)
| GreedyPlus (p : ascii -> bool)
| Opt (c : ascii)
| Group (r : regex).

Section Matcher.
Context {R : Type}.

(** [p*?]: try the continuation first, take one more unit on failure. *)
Fixpoint lazyStar (p : ascii -> bool) (s : string) (pos : nat)
    (k : string -> nat -> option R) : option R :=
  match k s pos with
  | Some r => Some r
  | None =>
      match s with
      | String c s' => if p c then lazyStar p s' (S pos) k else None
      | EmptyString => None
      end
  end.

(** [p*]: take as many units as possible, give them back one by one. *)
Fixpoint greedyStar (p : ascii -> bool) (s : string) (pos : nat)
    (k : string -> nat -> option R) : option R :=
  match s with
  | String c s' =>
      if p c
      then match greedyStar p s' (S pos) k with
           | Some r => Some r
           | None => k s pos
           end
      else k s pos
  | EmptyString => k s pos
  end.

(** [run r s pos cap k]: match [r] against [s], the rest of the input
    from position [pos]; [cap] is the text of group 1 so far. *)
Fixpoint run (r : regex) (s : string) (pos : nat) (cap : option string)
    (k : string -> nat -> option string -> option R) : option R :=
  match r with
  | Lit c =>
      match s with
      | String x s' => if Ascii.eqb x c then k s' (S pos) cap else None
      | EmptyString => None
      end
  | Class p =>
      match s with
      | String x s' => if p x then k s' (S pos) cap else None
      | EmptyString => None
      end
  | Cat r1 r2 => run r1 s pos cap (fun s1 p1 c1 => run r2 s1 p1 c1 k)
  | LazyStar p => lazyStar p s pos (fun s' p' => k s' p' cap)
  | GreedyPlus p =>
      match s with
      | String x s' =>
          if p x then greedyStar p s' (S pos) (fun s'' p' => k s'' p' cap)
          else None
      | EmptyString => None
      end
  | Opt c =>
      match s with
      | String x s' =>
          if Ascii.eqb x c
          then match k s' (S pos) cap with
               | Some v => Some v
               | None => k s pos cap
               end
          else k s pos cap
      | EmptyString => k s pos cap
      end
  | Group r1 =>
      run r1 s pos cap
        (fun s' p' _ => k s' p' (Some (String.substring 0 (p' - pos) s)))
  end.
End Matcher.

(** One match: where it starts and ends, its text, the text of group 1. *)
Record found : Type := Found {
  mstart : nat;
  mend : nat;
  mtext : string;
  mgroup : option string
}.

(** A match that starts exactly at [pos]. *)
Definition matchAt (r : regex) (s : string) (pos : nat) : option found :=
  run r s pos None
    (fun _ e c => Some (Found pos e (String.substring 0 (e - pos) s) c)).

(** The leftmost match at or after [pos]. *)
Fixpoint search (r : regex) (s : string) (pos : nat) : option found :=
  match matchAt r s pos with
  | Some m => Some m
  | None =>
      match s with
      | String _ s' => search r s' (S pos)
      | EmptyString => None
      end
  end.

(** The rest of [s] after [n] code units, when there are that many. *)
Fixpoint dropUnits (n : nat) (s : string) : option string :=
  match n with
  | O => Some s
  | S n' =>
      match s with
      | String _ s' => dropUnits n' s'
      | EmptyString => None
      end
  end.

(** The successive matches of a global pattern: after a match the search
    resumes at its end, one unit further after an empty match. *)
Fixpoint allMatches (fuel : nat) (r : regex) (s : string) (pos : nat)
    : list found :=
  match fuel with
  | O => []
  | S fuel' =>
      match search r s pos with
      | None => []
      | Some m =>
          let next := if (mend m =? mstart m)%nat then S (mend m) else mend m in
          m :: match dropUnits (next - pos) s with
               | Some s' => allMatches fuel' r s' next
               | None => []
               end
      end
  end.

Definition matches (r : regex) (s : string) : list found :=
  allMatches (S (String.length s)) r s 0.

End Regex.

Import Regex.

(** ** [String.prototype.match], [replace] and [split] *)

Module JsReplace.

Definition digit (c : ascii) : option nat :=
  let n := nat_of_ascii c in
  if ((48 <=? n) && (n <=? 57))%nat then Some (n - 48)%nat else None.

(** [captures[i]], counted from 1; [undefined] reads as the empty text. *)
Definition capture (caps : list (option string)) (i : nat) : option string :=
  match i with
  | O => None
  | S j =>
      match nth_error caps j with
      | Some c => Some (default "" c)
      | None => None
      end
  end.

(** Expansion of a replacement template: [$$], [$&], [$`], [$'], [$n] and
    [$nn]; a reference to a group that the pattern does not have stays as
    it is written.  [before] and [after] are the parts of the subject
    around the match. *)
Fixpoint getSubstitution (matched before after : string)
    (caps : list (option string)) (tpl : string) : string :=
  match tpl with
  | EmptyString => EmptyString
  | String c t =>
      if Ascii.eqb c "$" then
        match t with
        | EmptyString => String c EmptyString
        | String d t1 =>
            if Ascii.eqb d "$" then String "$" (getSubstitution matched before after caps t1)
            else if Ascii.eqb d "&" then matched +:+ getSubstitution matched before after caps t1
            else if Ascii.eqb d "`" then before +:+ getSubstitution matched before after caps t1
            else if Ascii.eqb d "'" then after +:+ getSubstitution matched before after caps t1
            else
              match digit d with
              | None => String c (getSubstitution matched before after caps t)
              | Some n1 =>
                  let one :=
                    match capture caps n1 with
                    | Some v => v +:+ getSubstitution matched before after caps t1
                    | None => String c (String d (getSubstitution matched before after caps t1))
                    end in
                  match t1 with
                  | EmptyString => one
                  | String d' t2 =>
                      match digit d' with
                      | None => one
                      | Some n2 =>
                          let nn := (10 * n1 + n2)%nat in
                          if (nn <=? List.length caps)%nat then
                            match capture caps nn with
                            | Some v => v +:+ getSubstitution matched before after caps t2
                            | None =>
                                String c (String d (String d'
                                  (getSubstitution matched before after caps t2)))
                            end
                          else one
                      end
                  end
              end
        end
      else String c (getSubstitution matched before after caps t)
  end.

(** [s.replace(pat, tpl)] with a string pattern: the first occurrence only. *)
Definition replace (s pat tpl : string) : string :=
  match firstIndex s pat 0 with
  | None => s
  | Some i =>
      let before := String.substring 0 i s in
      let after := substringFrom s (Z.of_nat (i + String.length pat)) in
      before +:+ getSubstitution pat before after [] tpl +:+ after
  end.

(** [s.match(r)] with a global pattern: the texts of all matches, or
    [null] when there is none. *)
Definition matchG (s : string) (r : regex) : option (list string) :=
  match matches r s with
  | [] => None
  | ms => Some (map mtext ms)
  end.

(** The groups of a match, as [getSubstitution] receives them. *)
Fixpoint hasGroup (r : regex) : bool :=
  match r with
  | Group _ => true
  | Cat r1 r2 => hasGroup r1 || hasGroup r2
  | _ => false
  end.

Definition captures (r : regex) (m : found) : list (option string) :=
  if hasGroup r then [mgroup m] else [].

(** [s.replace(r, tpl)] with a global pattern: every match is replaced,
    the text between the matches is kept. *)
Fixpoint replaceGo (r : regex) (s tpl : string) (ms : list found) (from : nat)
    : string :=
  match ms with
  | [] => substringFrom s (Z.of_nat from)
  | m :: ms' =>
      substring s (Z.of_nat from) (Z.of_nat (mstart m))
      +:+ getSubstitution (mtext m)
            (String.substring 0 (mstart m) s)
            (substringFrom s (Z.of_nat (mend m)))
            (captures r m) tpl
      +:+ replaceGo r s tpl ms' (mend m)
  end.

Definition replaceG (s : string) (r : regex) (tpl : string) : string :=
  replaceGo r s tpl (matches r s) 0.

(** [s.split(r)] for a pattern without group.  [s] is the input from
    position [q], [cur] the piece collected since position [p]. *)
Fixpoint splitReGo (fuel : nat) (r : regex) (s : string) (q : nat)
    (cur : string) (p : nat) : list string :=
  match fuel with
  | O => [cur]
  | S fuel' =>
      match s with
      | EmptyString => [cur]
      | String c s' =>
          match matchAt r s q with
          | None => splitReGo fuel' r s' (S q) (cur +:+ String c "") p
          | Some m =>
              if (mend m =? p)%nat
              then splitReGo fuel' r s' (S q) (cur +:+ String c "") p
              else
                cur :: match dropUnits (mend m - q) s with
                       | Some rest => splitReGo fuel' r rest (mend m) "" (mend m)
                       | None => [""]
                       end
          end
      end
  end.

Definition splitRe (s : string) (r : regex) : list string :=
  match s with
  | EmptyString =>
      match matchAt r s 0 with
      | Some _ => []
      | None => [s]
      end
  | _ => splitReGo (2 * String.length s + 2) r s 0 "" 0
  end.

End JsReplace.

Import JsReplace.

(** The patterns of [lib/parser.js]. *)

(** [.]: any code unit but a line terminator. *)
Definition dot (c : ascii) : bool :=
  negb (Ascii.eqb c "010" || Ascii.eqb c "013").

(** The double quote, as a code unit and as a string. *)
Definition dq : ascii := "034"%char.
Definition DQ : string := String dq "".

(** The backslash. *)
Definition bs : ascii := "092"%char.

(** A text in which every apostrophe stands for a double quote. *)
Fixpoint dquote (s : string) : string :=
  match s with
  | EmptyString => EmptyString
  | String c s' => String (if Ascii.eqb c "'" then dq else c) (dquote s')
  end.

(** [/Q.*?Q: Q(.*?)Q[,}]/g], where Q is the double quote. *)
Definition reKeyValue : regex :=
  Cat (Lit dq) (Cat (LazyStar dot) (Cat (Lit dq) (Cat (Lit ":") (Cat (Lit " ")
  (Cat (Lit dq) (Cat (Group (LazyStar dot)) (Cat (Lit dq)
  (Class (fun c => Ascii.eqb c "," || Ascii.eqb c "}")))))))))%char.

(** [/\Q/g], where Q is the double quote: the quote itself. *)
Definition reQuote : regex := Lit dq.

(** [/\[([^\]]+)]/g] *)
Definition reBracket : regex :=
  Cat (Lit "[") (Cat (Group (GreedyPlus (fun c => negb (Ascii.eqb c "]"))))
  (Lit "]"))%char.

(** [/\r?\n/] *)
Definition reNewline : regex := Cat (Opt "013") (Lit "010").


(** ** [JSON.parse] *)

Module JSON.

(** A decoded value.  A decoded string is a list of code units, since an
    escape can name any 16-bit unit; a number keeps its literal text; the
    members of an object are kept in the order of the text. *)
#[warnings="-register-all"] Inductive json : Type :=
| JNull
| JBool (b : bool)
| JNumber (literal : string)
| JString (u : list N)
| JArray (items : list json)
| JObject (members : list (list N * json)).

(** The code units of a text. *)
Fixpoint units (s : string) : list N :=
  match s with
  | EmptyString => []
  | String c s' => N_of_ascii c :: units s'
  end.

(** [o[k]] on a decoded object: the last member named [k] wins. *)
Fixpoint member (k : list N) (ms : list (list N * json)) : option json :=
  match ms with
  | [] => None
  | (k', v) :: ms' =>
      match member k ms' with
      | Some w => Some w
      | None => if decide (k' = k) then Some v else None
      end
  end.

Definition isJsonSpace (c : ascii) : bool :=
  let n := N_of_ascii c in ((n =? 32) || (n =? 9) || (n =? 10) || (n =? 13))%N.

Fixpoint skipWs (s : string) : string :=
  match s with
  | String c s' => if isJsonSpace c then skipWs s' else s
  | EmptyString => EmptyString
  end.

Definition hexDigit (c : ascii) : option N :=
  let n := N_of_ascii c in
  if ((48 <=? n) && (n <=? 57))%N then Some (n - 48)%N
  else if ((65 <=? n) && (n <=? 70))%N then Some (n - 55)%N
  else if ((97 <=? n) && (n <=? 102))%N then Some (n - 87)%N
  else None.

Definition hex4 (a b c d : ascii) : option N :=
  match hexDigit a, hexDigit b, hexDigit c, hexDigit d with
  | Some x, Some y, Some z, Some w => Some (((x * 16 + y) * 16 + z) * 16 + w)%N
  | _, _, _, _ => None
  end.

(** The unit that a one-letter escape stands for. *)
Definition escape (c : ascii) : option N :=
  if Ascii.eqb c dq then Some 34%N
  else if Ascii.eqb c bs then Some 92%N
  else if Ascii.eqb c "/" then Some 47%N
  else if Ascii.eqb c "b" then Some 8%N
  else if Ascii.eqb c "f" then Some 12%N
  else if Ascii.eqb c "n" then Some 10%N
  else if Ascii.eqb c "r" then Some 13%N
  else if Ascii.eqb c "t" then Some 9%N
  else None.

(** The rest of a string literal, after its opening quote. *)
Fixpoint parseChars (s : string) (acc : list N) : option (list N * string) :=
  match s with
  | EmptyString => None
  | String c r =>
      if Ascii.eqb c dq then Some (rev acc, r)
      else if Ascii.eqb c bs then
        match r with
        | EmptyString => None
        | String e r1 =>
            if Ascii.eqb e "u" then
              match r1 with
              | String h1 (String h2 (String h3 (String h4 r2))) =>
                  match hex4 h1 h2 h3 h4 with
                  | Some n => parseChars r2 (n :: acc)
                  | None => None
                  end
              | _ => None
              end
            else
              match escape e with
              | Some n => parseChars r1 (n :: acc)
              | None => None
              end
        end
      else if (N_of_ascii c <? 32)%N then None
      else parseChars r (N_of_ascii c :: acc)
  end.

Definition isDigit (c : ascii) : bool :=
  let n := N_of_ascii c in ((48 <=? n) && (n <=? 57))%N.

Fixpoint takeDigits (s : string) : string * string :=
  match s with
  | String c r =>
      if isDigit c then let '(d, r') := takeDigits r in (String c d, r')
      else (EmptyString, s)
  | EmptyString => (EmptyString, EmptyString)
  end.

(** A number: an optional minus sign; a zero, or a digit from 1 to 9 and
    any digits; optionally a point and at least one digit; optionally an
    exponent mark, a sign and at least one digit. *)
Definition parseNumber (s : string) : option (string * string) :=
  let '(sign, s1) :=
    match s with
    | String c r => if Ascii.eqb c "-" then ("-", r) else ("", s)
    | EmptyString => ("", s)
    end in
  let int :=
    match s1 with
    | String c r =>
        if Ascii.eqb c "0" then Some ("0", r)
        else if isDigit c then let '(d, r') := takeDigits r in Some (String c d, r')
        else None
    | EmptyString => None
    end in
  match int with
  | None => None
  | Some (i, s2) =>
      let frac :=
        match s2 with
        | String c r =>
            if Ascii.eqb c "." then
              match takeDigits r with
              | (EmptyString, _) => None
              | (d, r') => Some (String c d, r')
              end
            else Some ("", s2)
        | EmptyString => Some ("", s2)
        end in
      match frac with
      | None => None
      | Some (f, s3) =>
          let exp :=
            match s3 with
            | String c r =>
                if Ascii.eqb c "e" || Ascii.eqb c "E" then
                  let '(sg, r1) :=
                    match r with
                    | String c' r' =>
                        if Ascii.eqb c' "+" || Ascii.eqb c' "-"
                        then (String c' "", r') else ("", r)
                    | EmptyString => ("", r)
                    end in
                  match takeDigits r1 with
                  | (EmptyString, _) => None
                  | (d, r2) => Some (String c (sg +:+ d), r2)
                  end
                else Some ("", s3)
            | EmptyString => Some ("", s3)
            end in
          match exp with
          | None => None
          | Some (e, s4) => Some (sign +:+ i +:+ f +:+ e, s4)
          end
      end
  end.

(** A keyword at the head of [s]. *)
Definition keyword (w : string) (s : string) : option string :=
  if startsWith s w then dropUnits (String.length w) s else None.

(** Values, the elements of an array after its opening bracket, and the
    members of an object after its opening brace.  Every call consumes a
    code unit before the next call at the same level, so a fuel of twice
    the length of the text is never exhausted. *)
Fixpoint parseValue (fuel : nat) (s : string) : option (json * string) :=
  match fuel with
  | O => None
  | S fuel' =>
      match skipWs s with
      | EmptyString => None
      | String c r =>
          if Ascii.eqb c "[" then
            match skipWs r with
            | String c' r' =>
                if Ascii.eqb c' "]" then Some (JArray [], r')
                else parseElements fuel' r []
            | EmptyString => None
            end
          else if Ascii.eqb c "{" then
            match skipWs r with
            | String c' r' =>
                if Ascii.eqb c' "}" then Some (JObject [], r')
                else parseMembers fuel' r []
            | EmptyString => None
            end
          else if Ascii.eqb c dq then
            match parseChars r [] with
            | Some (u, r') => Some (JString u, r')
            | None => None
            end
          else
            match keyword "true" (String c r) with
            | Some r' => Some (JBool true, r')
            | None =>
                match keyword "false" (String c r) with
                | Some r' => Some (JBool false, r')
                | None =>
                    match keyword "null" (String c r) with
                    | Some r' => Some (JNull, r')
                    | None =>
                        match parseNumber (String c r) with
                        | Some (n, r') => Some (JNumber n, r')
                        | None => None
                        end
                    end
                end
            end
      end
  end
with parseElements (fuel : nat) (s : string) (acc : list json)
    : option (json * string) :=
  match fuel with
  | O => None
  | S fuel' =>
      match parseValue fuel' s with
      | None => None
      | Some (v, r) =>
          match skipWs r with
          | String c r' =>
              if Ascii.eqb c "," then parseElements fuel' r' (v :: acc)
              else if Ascii.eqb c "]" then Some (JArray (rev (v :: acc)), r')
              else None
          | EmptyString => None
          end
      end
  end
with parseMembers (fuel : nat) (s : string) (acc : list (list N * json))
    : option (json * string) :=
  match fuel with
  | O => None
  | S fuel' =>
      match skipWs s with
      | String q r =>
          if Ascii.eqb q dq then
            match parseChars r [] with
            | None => None
            | Some (key, r1) =>
                match skipWs r1 with
                | String c r2 =>
                    if Ascii.eqb c ":" then
                      match parseValue fuel' r2 with
                      | None => None
                      | Some (v, r3) =>
                          match skipWs r3 with
                          | String c' r4 =>
                              if Ascii.eqb c' ","
                              then parseMembers fuel' r4 ((key, v) :: acc)
                              else if Ascii.eqb c' "}"
                              then Some (JObject (rev ((key, v) :: acc)), r4)
                              else None
                          | EmptyString => None
                          end
                      end
                    else None
                | EmptyString => None
                end
            end
          else None
      | EmptyString => None
      end
  end.

(** [JSON.parse(text)]: one value, white space around it, nothing else;
    [SyntaxError] otherwise. *)
Definition parse (text : string) : result json :=
  match parseValue (2 * String.length text + 2) text with
  | Some (v, r) =>
      match skipWs r with
      | EmptyString => Return v
      | _ => Throw SyntaxError
      end
  | None => Throw SyntaxError
  end.

End JSON.

Import JSON.


(** ** The parsers of [lib/parser.js] *)

(** An entry of the status result: [{ file, status }]. *)
Record statusEntry : Type := StatusEntry {
  se_file : string;
  se_status : string
}.

(** [{ staged, unstaged, untracked }] *)
Record statusResult : Type := StatusResult {
  st_staged : list statusEntry;
  st_unstaged : list statusEntry;
  st_untracked : list statusEntry
}.

(** [{ branch, commit, changed, operations }] *)
Record commitInfo : Type := CommitInfo {
  cr_branch : jsval;
  cr_commit : jsval;
  cr_changed : jsval;
  cr_operations : list string
}.

(** What [parsers.commit] returns: [{ error }] or the record above. *)
Inductive commitResult : Type :=
| Rejected (error : jsval)
| Committed (info : commitInfo).

(** [{ current, others }]; [current] starts as [null]. *)
Record branchTree : Type := BranchTree {
  bt_current : option string;
  bt_others : list string
}.

(** A method call on a value: [undefined] has no methods. *)
Definition receiver (v : jsval) : result string :=
  match v with
  | str s => Return s
  | undefined => Throw TypeError
  end.

(** An element access on the result of [match]: [null] has no elements. *)
Definition elementOf (m : option (list string)) (i : nat) : result jsval :=
  match m with
  | Some a => Return (at_index a i)
  | None => Throw TypeError
  end.

(** Truthiness of a string or [undefined]. *)
Definition truthy (v : jsval) : bool :=
  match v with
  | str EmptyString => false
  | str _ => true
  | undefined => false
  end.

(** The name under which a value is used as a property key. *)
Definition propertyKey (v : jsval) : string :=
  match v with
  | str s => s
  | undefined => "undefined"
  end.

(** [o[k] = v] on an object created by [{}], for a value [v] that is a
    string or [undefined].  [__proto__] is an accessor inherited from
    [Object.prototype]: its setter ignores a value that is neither an object
    nor [null], so that assignment creates no property.  Every other name
    becomes (or updates) an own property. *)
Definition setProperty (o : gmap string jsval) (k : string) (v : jsval)
    : gmap string jsval :=
  if decide (k = "__proto__") then o else <[k := v]> o.

Module parsers.

(** The key-value texts are handled from the last to the first. *)
Definition logRepair (log : string) (h : string) : string :=
  let hh := replaceG h reKeyValue "$1" in
  let hhh := replaceG hh reQuote (String bs DQ) in
  replace log hh hhh.

Definition log (output : string) : result json :=
  let log0 :=
    "[" +:+ substring output 0 (Z.of_nat (String.length output) - 1) +:+ "]" in
  let h := matchG log0 reKeyValue in
  let log1 :=
    match h with
    | Some hs => fold_left logRepair (rev hs) log0
    | None => log0
    end in
  JSON.parse log1.

(** The body of the [forEach] of [parsers.status], on one line that has
    been cut into [[s.substring(0,2), s.substring(3)]]. *)
Definition statusStep (st : statusResult) (line : string * string) : statusResult :=
  let fileStatus := fst line in
  let fileName := snd line in
  if negb (truthy (str fileStatus)) then st
  else if String.eqb (substring fileStatus 0 2) "??" then
    StatusResult (st_staged st) (st_unstaged st)
      (st_untracked st ++ [StatusEntry fileName fileStatus])
  else if String.eqb (substring fileStatus 0 1) "A" then
    StatusResult (st_staged st ++ [StatusEntry fileName fileStatus])
      (st_unstaged st) (st_untracked st)
  else
    StatusResult (st_staged st)
      (st_unstaged st ++ [StatusEntry fileName fileStatus]) (st_untracked st).

Definition status (gitstatus : string) : statusResult :=
  let output :=
    map (fun s => (substring s 0 2, substringFrom s 3)) (split gitstatus LF) in
  fold_left statusStep output (StatusResult [] [] []).

(** The first line without [#], or [undefined] when the loop ends. *)
Fixpoint firstLineWithoutHash (lines : list string) : jsval :=
  match lines with
  | [] => undefined
  | l :: rest =>
      if (indexOf l "#" =? -1) then str l else firstLineWithoutHash rest
  end.

Definition commit (output : string) : result commitResult :=
  let commitFailed :=
    (indexOf output "nothing to commit" >? -1)
    || (indexOf output "no changes added to commit" >? -1) in
  if commitFailed then
    Return (Rejected (firstLineWithoutHash (split output LF)))
  else
    (* an array is never falsy: the fallback of the source is dead *)
    let splitOutput := split output LF in
    let* line0 := receiver (at_index splitOutput 0) in
    let* m0 := elementOf (matchG line0 reBracket) 0 in
    let* branchAndHash := receiver m0 in
    let branch :=
      substring branchAndHash 1 (Z.of_nat (String.length branchAndHash) - 1) in
    let hash :=
      substring branchAndHash 1 (Z.of_nat (String.length branchAndHash) - 1) in
    let* line1 := receiver (at_index splitOutput 1) in
    let filesChanged := at_index (split line1 " ") 0 in
    let operations := drop 2 splitOutput in
    Return (Committed
      (CommitInfo (at_index (split branch " ") 0)
                  (at_index (split hash " ") 1)
                  filesChanged
                  operations)).

Definition branchStep (tree : branchTree) (val : string) : branchTree :=
  if (indexOf val "*" >? -1) then
    BranchTree (Some (trim (replace val "*" ""))) (bt_others tree)
  else if truthy (str val) then
    BranchTree (bt_current tree) (bt_others tree ++ [trim val])
  else tree.

Definition branch (output : string) : branchTree :=
  fold_left branchStep (split output LF) (BranchTree None []).

(** [for (i = 0; i < a.length; i++) if (!a[i].length) a.splice(i, 1)]:
    the index moves on after a removal as well. *)
Fixpoint spliceEmpty (fuel : nat) (i : nat) (a : list string) : list string :=
  match fuel with
  | O => a
  | S fuel' =>
      match a !! i with
      | None => a
      | Some x =>
          if (String.length x =? 0)%nat
          then spliceEmpty fuel' (S i) (delete i a)
          else spliceEmpty fuel' (S i) a
      end
  end.

Definition tag (output : string) : list string :=
  let tags := splitRe output reNewline in
  spliceEmpty (List.length tags) 0 tags.

Definition remotesStep (list : gmap string jsval) (val : string)
    : result (gmap string jsval) :=
  if truthy (at_index (split val TAB) 0) then
    let key := propertyKey (at_index (split val TAB) 0) in
    let* field := receiver (at_index (split val TAB) 1) in
    Return (setProperty list key (at_index (split field " ") 0))
  else Return list.

Fixpoint forEachRemote (list : gmap string jsval) (parseme : Datatypes.list string)
    : result (gmap string jsval) :=
  match parseme with
  | [] => Return list
  | val :: rest =>
      let* list' := remotesStep list val in
      forEachRemote list' rest
  end.

Definition remotes (output : string) : result (gmap string jsval) :=
  forEachRemote ∅ (split output LF).

Definition syncErr (output : string) : list string :=
  let result := split output CRLF in
  spliceEmpty (List.length result) 0 result.

Definition syncSuccess (output : string) : string := output.

End parsers.


(** * Vocabulary of the statements *)

(** [contains s p]: the text [p] occurs in [s]. *)
Definition contains (s p : string) : Prop :=
  exists a b, s = a +:+ p +:+ b.

(** Every code unit of [s] satisfies [p]. *)
Fixpoint every (p : ascii -> bool) (s : string) : bool :=
  match s with
  | EmptyString => true
  | String c s' => p c && every p s'
  end.

(** [bracketed l]: the line holds a [[...]] token, a left bracket, at least
    one code unit other than the right bracket, and a right bracket. *)
Definition bracketed (l : string) : Prop :=
  exists a mid b,
    l = a +:+ "[" +:+ mid +:+ "]" +:+ b /\ mid <> "" /\ mem "]" mid = false.

(** A rejected commit: a comment line, then the phrase. *)
Definition rejectionExample : string :=
  "# On branch main" +:+ LF +:+ "nothing to commit, working tree clean".

(** The three lines that [git commit] prints for one new file. *)
Definition commitExample : string :=
  "[main abc1234] msg" +:+ LF +:+ " 1 file changed, 2 insertions(+)"
  +:+ LF +:+ " create mode foo.txt".

(** A record as gitty asks [git log] to print it, and a record with the
    message field alone; an apostrophe stands for a double quote. *)
Definition logRecord : string :=
  dquote "{'commit': '1f0c3a9','author': 'A U Thor <author@example.com>','date': 'Mon Apr 1 10:00:00 2013 +0200','message': 'He said 'hi''},".

Definition logRecordMessageOnly : string :=
  dquote "{'message': 'He said 'hi''},".

(** Three more records in the same format.  In the first the author name
    is the text of the message; in the second the author name holds a
    dollar sign and a backquote, and no quote; in the third the quoted word
    of the message is followed by a comma. *)
Definition logRecordSameAuthor : string :=
  dquote "{'commit': '1f0c3a9','author': 'He said 'hi' <a@example.com>','date': 'Mon Apr 1 10:00:00 2013 +0200','message': 'He said 'hi''},".

Definition logRecordDollarAuthor : string :=
  dquote "{'commit': '1f0c3a9','author': 'A $` B <a@example.com>','date': 'Mon Apr 1 10:00:00 2013 +0200','message': 'He said 'hi''},".

Definition logRecordQuoteComma : string :=
  dquote "{'commit': '1f0c3a9','author': 'A U Thor <author@example.com>','date': 'Mon Apr 1 10:00:00 2013 +0200','message': 'He said 'hi', ok'},".

(** A line with at least one code unit. *)
Definition nonEmpty (s : string) : bool := negb (String.length s =? 0)%nat.

(** The entry made from a line, the pair as the [map] of the source cuts
    it, and the three routes. *)
Definition entryOf (l : string) : statusEntry :=
  StatusEntry (substringFrom l 3) (substring l 0 2).

Definition cut (l : string) : string * string :=
  (substring l 0 2, substringFrom l 3).

Definition isUntracked (l : string) : bool := startsWith l "??".

Definition isStaged (l : string) : bool :=
  negb (startsWith l "??") && startsWith l "A".

Definition isUnstaged (l : string) : bool :=
  negb (startsWith l "??") && negb (startsWith l "A").

(** A branch list with the current branch in the middle. *)
Definition branchExample : string :=
  "  develop" +:+ LF +:+ "* main" +:+ LF +:+ "  topic/x" +:+ LF.

(** The text before the first [c], and the text after it. *)
Fixpoint upTo (c : ascii) (s : string) : string :=
  match s with
  | EmptyString => EmptyString
  | String x s' => if Ascii.eqb x c then EmptyString else String x (upTo c s')
  end.

Fixpoint afterFirst (c : ascii) (s : string) : option string :=
  match s with
  | EmptyString => None
  | String x s' => if Ascii.eqb x c then Some s' else afterFirst c s'
  end.

(** The tab, as a code unit. *)
Definition tab : ascii := "009"%char.

(** The first tab-separated field of a line. *)
Definition firstField (l : string) : string := upTo tab l.

(** A line that [parsers.remotes] can take: its first field is empty (the
    line is passed over) or it has a second field. *)
Definition wellFormed (l : string) : Prop :=
  firstField l = "" \/ mem tab l = true.

(** A remote list whose second line has a space where the tab should be. *)
Definition remotesNoTabExample : string :=
  "origin" +:+ TAB +:+ "https://example.com/a.git (fetch)" +:+ LF
  +:+ "upstream https://example.com/b.git (fetch)" +:+ LF.

(** A remote list that names [origin] twice, with two URLs. *)
Definition remotesExample : string :=
  "origin" +:+ TAB +:+ "https://example.com/a.git (fetch)" +:+ LF
  +:+ "origin" +:+ TAB +:+ "https://example.com/b.git (push)" +:+ LF.

(** The same list for a remote called [__proto__]. *)
Definition remotesProtoExample : string :=
  "__proto__" +:+ TAB +:+ "https://example.com/a.git (fetch)" +:+ LF
  +:+ "__proto__" +:+ TAB +:+ "https://example.com/b.git (push)" +:+ LF.

(** What the removal loop leaves of an array: after an empty entry is
    removed, the entry that followed it is kept untested. *)
Fixpoint sweep (a : list string) : list string :=
  match a with
  | [] => []
  | x :: r =>
      if (String.length x =? 0)%nat
      then match r with
           | [] => []
           | y :: r' => y :: sweep r'
           end
      else x :: sweep r
  end.

(** Two empty entries in a row. *)
Fixpoint adjacentEmpty (a : list string) : bool :=
  match a with
  | [] => false
  | x :: r =>
      match r with
      | [] => false
      | y :: _ =>
          ((String.length x =? 0)%nat && (String.length y =? 0)%nat)
          || adjacentEmpty r
      end
  end.

(** The carriage return, as a code unit. *)
Definition cr : ascii := "013"%char.

(** A line that [parsers.branch] appends to [others]. *)
Definition isOther (l : string) : bool := negb (mem "*" l) && nonEmpty l.

(** The text that [parsers.log] hands to its repair pass: the output
    without its last code unit, between brackets. *)
Definition wrapped (output : string) : string :=
  "[" +:+ substring output 0 (Z.of_nat (String.length output) - 1) +:+ "]".

(** The key-value texts that the pattern of [parsers.log] finds, and the
    value that the repair pass takes out of one of them. *)
Definition keyValueTexts (text : string) : list string :=
  match matchG text reKeyValue with
  | Some hs => hs
  | None => []
  end.

Definition valueOf (h : string) : string := replaceG h reKeyValue "$1".

(** A value that needs no repair: no double quote, and no dollar sign
    that a replacement template would expand. *)
Definition plainValue (h : string) : Prop :=
  mem dq (valueOf h) = false /\ mem "$" (valueOf h) = false.

(** * Facts about the runtime functions *)

(** ** Concatenation and membership *)

Lemma sapp_cons (c : ascii) (a b : string) :
  String c a +:+ b = String c (a +:+ b).
Proof. reflexivity. Qed.

Lemma sapp_nil_r (a : string) : a +:+ "" = a.
Proof. induction a as [|c a IH]; [reflexivity|]. now rewrite sapp_cons, IH. Qed.

Lemma sapp_assoc (a b c : string) : (a +:+ b) +:+ c = a +:+ (b +:+ c).
Proof.
  induction a as [|x a IH]; [reflexivity|].
  now rewrite !sapp_cons, IH.
Qed.

Lemma slength_app (a b : string) :
  String.length (a +:+ b) = (String.length a + String.length b)%nat.
Proof.
  induction a as [|x a IH]; [reflexivity|].
  rewrite sapp_cons. simpl. now rewrite IH.
Qed.

Lemma mem_app (c : ascii) (a b : string) :
  mem c (a +:+ b) = mem c a || mem c b.
Proof.
  induction a as [|x a IH]; [reflexivity|].
  rewrite sapp_cons. simpl. rewrite IH. now rewrite orb_assoc.
Qed.

Lemma startsWith_app (p b : string) : startsWith (p +:+ b) p = true.
Proof.
  induction p as [|y p IH]; [now destruct b|].
  rewrite sapp_cons. simpl. now rewrite Ascii.eqb_refl, IH.
Qed.

Lemma startsWith_inv (s p : string) :
  startsWith s p = true -> exists b, s = p +:+ b.
Proof.
  revert s. induction p as [|y p IH]; intros s H.
  - exists s. reflexivity.
  - destruct s as [|x s]; simpl in H; [discriminate|].
    apply andb_true_iff in H as [Hx Hp].
    apply Ascii.eqb_eq in Hx. subst y.
    destruct (IH _ Hp) as [b ->]. exists b. reflexivity.
Qed.

Lemma firstIndex_eq (s p : string) (i : nat) :
  firstIndex s p i =
  if startsWith s p then Some i
  else match s with
       | EmptyString => None
       | String _ s' => firstIndex s' p (S i)
       end.
Proof. destruct s; reflexivity. Qed.

Lemma firstIndex_sound (s p : string) (i j : nat) :
  firstIndex s p i = Some j ->
  exists a b, s = a +:+ p +:+ b /\ j = (i + String.length a)%nat.
Proof.
  revert i. induction s as [|x s IH]; intros i H.
  - destruct p as [|y p]; simpl in H; [|discriminate].
    injection H as <-. exists "", "". split; [reflexivity|simpl; lia].
  - rewrite firstIndex_eq in H. destruct (startsWith (String x s) p) eqn:E.
    + injection H as <-. apply startsWith_inv in E as [b E].
      exists "", b. split; [exact E|simpl; lia].
    + apply IH in H as (a & b & -> & ->).
      exists (String x a), b. split; [reflexivity|simpl; lia].
Qed.

Lemma firstIndex_complete (a p b : string) (i : nat) :
  exists j, firstIndex (a +:+ p +:+ b) p i = Some j.
Proof.
  revert i. induction a as [|x a IH]; intros i.
  - exists i. change ("" +:+ p +:+ b) with (p +:+ b).
    now rewrite firstIndex_eq, startsWith_app.
  - rewrite sapp_cons, firstIndex_eq.
    destruct (startsWith _ p); [eauto|]. apply IH.
Qed.

Lemma indexOf_contains (s p : string) :
  (indexOf s p >? -1) = true <-> contains s p.
Proof.
  unfold indexOf, contains. split.
  - destruct (firstIndex s p 0) as [j|] eqn:E; [|intros H; discriminate].
    intros _. apply firstIndex_sound in E as (a & b & -> & _). eauto.
  - intros (a & b & ->).
    destruct (firstIndex_complete a p b 0) as [j ->].
    apply Z.gtb_lt. lia.
Qed.

Lemma indexOf_absent (s p : string) :
  ~ contains s p -> (indexOf s p >? -1) = false.
Proof.
  intros H. destruct (indexOf s p >? -1) eqn:E; [|reflexivity].
  exfalso. apply H, indexOf_contains, E.
Qed.

Lemma not_contains (s p : string) :
  (indexOf s p >? -1) = false -> ~ contains s p.
Proof.
  intros H C. apply indexOf_contains in C. congruence.
Qed.

Lemma contains_char (s : string) (c : ascii) :
  contains s (String c "") <-> mem c s = true.
Proof.
  split.
  - intros (a & b & ->). rewrite mem_app, sapp_cons. simpl.
    rewrite Ascii.eqb_refl. now rewrite orb_true_r.
  - induction s as [|x s IH]; simpl; [discriminate|].
    intros H. apply orb_true_iff in H as [H|H].
    + apply Ascii.eqb_eq in H. subst x. exists "", s. reflexivity.
    + destruct (IH H) as (a & b & ->). exists (String x a), b. reflexivity.
Qed.

Lemma indexOf_char (s : string) (c : ascii) :
  (indexOf s (String c "") >? -1) = mem c s.
Proof.
  destruct (mem c s) eqn:E.
  - apply indexOf_contains, contains_char, E.
  - apply indexOf_absent. intros H. apply contains_char in H. congruence.
Qed.

Lemma indexOf_char_none (s : string) (c : ascii) :
  (indexOf s (String c "") =? -1) = negb (mem c s).
Proof.
  rewrite <- indexOf_char. unfold indexOf.
  destruct (firstIndex s _ 0) as [j|]; [|reflexivity].
  destruct (Z.eqb_spec (Z.of_nat j) (-1)); [lia|].
  symmetry. apply negb_false_iff, Z.gtb_lt. lia.
Qed.

(** ** The bracket pattern *)

Lemma every_not_mem (x : ascii) (s : string) :
  every (fun c => negb (Ascii.eqb c x)) s = true -> mem x s = false.
Proof.
  induction s as [|c s IH]; simpl; [reflexivity|].
  intros H. apply andb_true_iff in H as [H1 H2].
  apply negb_true_iff in H1. now rewrite H1, IH.
Qed.

Lemma greedyStar_inv {R : Type} (p : ascii -> bool) (s : string) (pos : nat)
    (k : string -> nat -> option R) (r : R) :
  greedyStar p s pos k = Some r ->
  exists a b, s = a +:+ b /\ every p a = true
              /\ k b (pos + String.length a)%nat = Some r.
Proof.
  revert pos. induction s as [|c s IH]; intros pos H; simpl in H.
  - exists "", "". rewrite Nat.add_0_r. auto.
  - destruct (p c) eqn:Hc.
    + destruct (greedyStar p s (S pos) k) as [r'|] eqn:E.
      * injection H as ->. apply IH in E as (a & b & -> & Ha & Hk).
        exists (String c a), b. simpl. rewrite Hc, Ha.
        replace (pos + S (String.length a))%nat
          with (S pos + String.length a)%nat by lia.
        auto.
      * exists "", (String c s). rewrite Nat.add_0_r. auto.
    + exists "", (String c s). rewrite Nat.add_0_r. auto.
Qed.

Lemma matchAt_bracket (s : string) (pos : nat) (m : found) :
  matchAt reBracket s pos = Some m ->
  exists mid b, s = "[" +:+ mid +:+ "]" +:+ b /\ mid <> "" /\ mem "]" mid = false.
Proof.
  unfold matchAt, reBracket. simpl.
  destruct s as [|c0 s]; [discriminate|].
  destruct (Ascii.eqb c0 "[") eqn:E0; [|discriminate].
  apply Ascii.eqb_eq in E0. subst c0.
  destruct s as [|c1 s]; [discriminate|].
  destruct (negb (Ascii.eqb c1 "]")) eqn:E1; [|discriminate].
  intros H. apply greedyStar_inv in H as (a & b & -> & Ha & Hk).
  destruct b as [|c2 b]; [discriminate|].
  destruct (Ascii.eqb c2 "]") eqn:E2; [|discriminate].
  apply Ascii.eqb_eq in E2. subst c2.
  exists (String c1 a), b. split; [reflexivity|]. split; [discriminate|].
  simpl. apply negb_true_iff in E1. rewrite E1. now apply every_not_mem.
Qed.

Lemma search_inv (r : regex) (s : string) (pos : nat) (m : found) :
  search r s pos = Some m ->
  exists a s', s = a +:+ s' /\ matchAt r s' (pos + String.length a)%nat = Some m.
Proof.
  revert pos. induction s as [|c s IH]; intros pos H; simpl in H.
  - destruct (matchAt r "" pos) eqn:E; [|discriminate].
    injection H as ->. exists "", "". rewrite Nat.add_0_r. auto.
  - destruct (matchAt r (String c s) pos) eqn:E.
    + injection H as ->. exists "", (String c s). rewrite Nat.add_0_r. auto.
    + apply IH in H as (a & s' & -> & H).
      exists (String c a), s'. split; [reflexivity|].
      simpl. now replace (pos + S (String.length a))%nat
        with (S pos + String.length a)%nat by lia.
Qed.

Lemma matchG_none (s : string) (r : regex) :
  search r s 0 = None -> matchG s r = None.
Proof. unfold matchG, matches. simpl. now intros ->. Qed.

Lemma matchG_bracket_none (l : string) :
  ~ bracketed l -> matchG l reBracket = None.
Proof.
  intros H. apply matchG_none.
  destruct (search reBracket l 0) as [m|] eqn:E; [|reflexivity].
  exfalso. apply H.
  apply search_inv in E as (a & s' & -> & E).
  apply matchAt_bracket in E as (mid & b & -> & Hmid & Hmem).
  exists a, mid, b. auto.
Qed.

(** ** [parsers.commit] *)

Lemma firstLineWithoutHash_spec (lines : list string) :
  (parsers.firstLineWithoutHash lines = undefined
   /\ Forall (fun l => mem "#" l = true) lines)
  \/ (exists pre l post,
        lines = pre ++ l :: post
        /\ Forall (fun l => mem "#" l = true) pre
        /\ mem "#" l = false
        /\ parsers.firstLineWithoutHash lines = str l).
Proof.
  induction lines as [|l lines IH]; simpl.
  - left. split; [reflexivity|constructor].
  - rewrite indexOf_char_none. destruct (mem "#" l) eqn:E; simpl.
    + destruct IH as [[H1 H2]|(pre & l' & post & -> & H1 & H2 & H3)].
      * left. split; [exact H1|now constructor].
      * right. exists (l :: pre), l', post.
        split; [reflexivity|]. split; [now constructor|]. auto.
    + right. exists [], l, lines. repeat split; auto.
Qed.

(** C6: when the text contains "nothing to commit" or "no changes added to
    commit", [parsers.commit] returns the value [{ error: L }] and does not
    throw; [L] is the first line without the character [#], and it is
    [undefined] when every line contains [#]. *)
Theorem commit_rejected (output : string) :
  contains output "nothing to commit"
  \/ contains output "no changes added to commit" ->
  exists e,
    parsers.commit output = Return (Rejected e)
    /\ ((e = undefined
         /\ Forall (fun l => mem "#" l = true) (split output LF))
        \/ (exists pre l post,
              split output LF = pre ++ l :: post
              /\ Forall (fun l => mem "#" l = true) pre
              /\ mem "#" l = false
              /\ e = str l)).
Proof.
  intros H.
  assert (E : (indexOf output "nothing to commit" >? -1)
              || (indexOf output "no changes added to commit" >? -1) = true).
  { apply orb_true_iff.
    destruct H as [H|H]; [left|right]; now apply indexOf_contains. }
  unfold parsers.commit. rewrite E.
  exists (parsers.firstLineWithoutHash (split output LF)).
  split; [reflexivity|].
  destruct (firstLineWithoutHash_spec (split output LF))
    as [[H1 H2]|(pre & l & post & H1 & H2 & H3 & H4)].
  - left. auto.
  - right. exists pre, l, post. auto.
Qed.

Lemma commit_rejected_witness :
  exists e,
    parsers.commit rejectionExample = Return (Rejected e)
    /\ ((e = undefined
         /\ Forall (fun l => mem "#" l = true) (split rejectionExample LF))
        \/ (exists pre l post,
              split rejectionExample LF = pre ++ l :: post
              /\ Forall (fun l => mem "#" l = true) pre
              /\ mem "#" l = false
              /\ e = str l)).
Proof.
  apply (commit_rejected rejectionExample).
  left. exists ("# On branch main" +:+ LF), ", working tree clean".
  reflexivity.
Defined.

(** C7, as the code has it: when the text contains neither rejection phrase
    and its line 0 holds no bracketed token, [parsers.commit] throws the
    [TypeError] of the runtime (an element access on the [null] that
    [match] returned). *)
Theorem commit_no_bracket_throws_TypeError
    (output line0 : string) (rest : list string) :
  ~ contains output "nothing to commit" ->
  ~ contains output "no changes added to commit" ->
  split output LF = line0 :: rest ->
  ~ bracketed line0 ->
  parsers.commit output = Throw TypeError.
Proof.
  intros H1 H2 Hs Hb. unfold parsers.commit.
  rewrite (indexOf_absent _ _ H1), (indexOf_absent _ _ H2), Hs. simpl.
  now rewrite (matchG_bracket_none _ Hb).
Qed.

Lemma not_bracketed_without_bracket (l : string) :
  mem "[" l = false -> ~ bracketed l.
Proof.
  intros H (a & mid & b & -> & _).
  rewrite mem_app, sapp_cons in H. simpl in H.
  now rewrite orb_true_r in H.
Qed.

Lemma commit_no_bracket_throws_TypeError_witness :
  parsers.commit "fatal: bad revision" = Throw TypeError.
Proof.
  apply (commit_no_bracket_throws_TypeError
           "fatal: bad revision" "fatal: bad revision" []).
  - apply not_contains. reflexivity.
  - apply not_contains. reflexivity.
  - reflexivity.
  - apply not_bracketed_without_bracket. reflexivity.
Defined.

(** C7, as stated, fails: the exception of this path is not [ParseError]. *)
Lemma commit_no_bracket_not_ParseError :
  parsers.commit "fatal: bad revision" <> Throw ParseError.
Proof. vm_compute. discriminate. Qed.

(** C1, as stated, fails: the result is not the record with [changed: "1"]
    and both remaining lines as operations. *)
Lemma commit_example_not_as_claimed :
  parsers.commit commitExample <>
  Return (Committed
    (CommitInfo (str "main") (str "abc1234") (str "1")
       [" 1 file changed, 2 insertions(+)"; " create mode foo.txt"])).
Proof. vm_compute. intros H. discriminate H. Qed.

(** C1, as the code has it: on the three-line example the transform returns
    a record whose branch is "main", whose commit is "abc1234", and whose
    operations are the lines from index 2 onward, here the single line
    " create mode foo.txt". *)
Theorem commit_example_fields :
  exists info,
    parsers.commit commitExample = Return (Committed info)
    /\ cr_branch info = str "main"
    /\ cr_commit info = str "abc1234"
    /\ cr_operations info = [" create mode foo.txt"].
Proof. eexists. split; [vm_compute; reflexivity|]. auto. Qed.

(** The changed field of the same example: line 1 starts with a space, so
    the first piece of [split(' ')] is the empty string. *)
Lemma commit_example_changed :
  exists info,
    parsers.commit commitExample = Return (Committed info)
    /\ cr_changed info = str "".
Proof. eexists. split; [vm_compute; reflexivity|]. reflexivity. Qed.

(** ** [parsers.log] *)

(** C3, as stated, fails: on the empty input nothing is thrown. *)
Lemma log_empty_input_does_not_throw :
  ~ exists e, parsers.log "" = Throw e.
Proof. intros [e H]. vm_compute in H. discriminate H. Qed.

(** C3, as the code has it: for the empty input, and for an input of one
    code unit (the last code unit is dropped), the text handed to the
    decoder is "[]" and [parsers.log] returns the empty sequence. *)
Theorem log_without_record_returns_empty (c : ascii) :
  parsers.log "" = Return (JArray [])
  /\ parsers.log (String c "") = Return (JArray []).
Proof. split; reflexivity. Qed.

(** Where the repair works: on a record whose other values hold neither
    the text of the message nor a dollar sign, the message [He said "hi"]
    decodes to exactly that text, inner quotes included. *)
Theorem log_keeps_inner_quotes :
  (exists fields,
      parsers.log logRecord = Return (JArray [JObject fields])
      /\ member (units "message") fields
         = Some (JString (units (dquote "He said 'hi'"))))
  /\ parsers.log logRecordMessageOnly
     = Return (JArray
         [JObject [(units "message", JString (units (dquote "He said 'hi'")))]]).
Proof.
  split.
  - eexists. split; [vm_compute; reflexivity|]. vm_compute. reflexivity.
  - vm_compute. reflexivity.
Qed.

(** C5 on three single well-formed records whose message holds a quoted
    word: the quotes of the message reach the decoder unescaped and
    [parsers.log] throws [SyntaxError] instead of returning the entry.
    With the message as author name, [log.replace(hh, hhh)] repairs the
    first occurrence of the text, which is the author; with [$] and a
    backquote in the author name, the same call expands the author as a
    replacement template and pastes the start of the text into it; with a
    comma after the quoted word, the pattern takes the inner quote for the
    end of the value. *)
Theorem log_repair_misses_message :
  parsers.log logRecordSameAuthor = Throw SyntaxError
  /\ parsers.log logRecordDollarAuthor = Throw SyntaxError
  /\ parsers.log logRecordQuoteComma = Throw SyntaxError.
Proof. repeat split; vm_compute; reflexivity. Qed.

(** ** [parsers.tag] and [parsers.syncErr] *)

Lemma filter_delete_empty (a : list string) (i : nat) (x : string) :
  a !! i = Some x -> nonEmpty x = false ->
  List.filter nonEmpty (delete i a) = List.filter nonEmpty a.
Proof.
  revert i. induction a as [|y a IH]; intros i Hi Hx; [discriminate|].
  destruct i as [|i]; simpl in *.
  - injection Hi as ->. now rewrite Hx.
  - change (delete (S i) (y :: a)) with (y :: delete i a). simpl.
    now rewrite (IH i Hi Hx).
Qed.

(** The loop removes empty strings only: the non-empty lines stay, in
    their order. *)
Lemma spliceEmpty_nonEmpty (fuel i : nat) (a : list string) :
  List.filter nonEmpty (parsers.spliceEmpty fuel i a) = List.filter nonEmpty a.
Proof.
  revert i a. induction fuel as [|fuel IH]; intros i a; simpl; [reflexivity|].
  destruct (a !! i) as [x|] eqn:E; [|reflexivity].
  destruct (String.length x =? 0)%nat eqn:Hx; rewrite IH; [|reflexivity].
  apply (filter_delete_empty a i x E). unfold nonEmpty. now rewrite Hx.
Qed.

(** The fuel given by [parsers.tag] and [parsers.syncErr], the length of the
    array, lets the loop run to its end: more fuel changes nothing. *)
Lemma spliceEmpty_fuel (fuel extra i : nat) (a : list string) :
  (List.length a <= i + fuel)%nat ->
  parsers.spliceEmpty (fuel + extra) i a = parsers.spliceEmpty fuel i a.
Proof.
  revert i a. induction fuel as [|fuel IH]; intros i a H.
  - assert (E : a !! i = None) by (apply lookup_ge_None; lia).
    destruct extra; simpl; [reflexivity|]. now rewrite E.
  - simpl. destruct (a !! i) as [x|] eqn:E; [|reflexivity].
    destruct (String.length x =? 0)%nat.
    + apply IH. rewrite length_delete by eauto. lia.
    + apply IH. lia.
Qed.

(** X1: [parsers.tag] loses no tag and keeps the order: the non-empty
    entries of its result are the non-empty pieces of the text, cut at its
    line ends, in the same order. *)
Lemma tag_keeps_nonEmpty_lines (output : string) :
  List.filter nonEmpty (parsers.tag output)
  = List.filter nonEmpty (splitRe output reNewline).
Proof. apply spliceEmpty_nonEmpty. Qed.

(** X2: the same for [parsers.syncErr] and the pieces cut at CR LF. *)
Lemma syncErr_keeps_nonEmpty_lines (output : string) :
  List.filter nonEmpty (parsers.syncErr output)
  = List.filter nonEmpty (split output CRLF).
Proof. apply spliceEmpty_nonEmpty. Qed.

(** C2 at two empty lines in a row: after the first one is removed the
    index moves past the second, which stays in the result of both
    transforms. *)
Theorem tag_syncErr_keep_empty_string :
  parsers.tag ("v1" +:+ LF +:+ LF +:+ LF +:+ "v2") = ["v1"; ""; "v2"]
  /\ parsers.syncErr ("a" +:+ CRLF +:+ CRLF +:+ CRLF +:+ "b") = ["a"; ""; "b"].
Proof. split; vm_compute; reflexivity. Qed.

(** ** [substring] *)

Lemma clamp_nat (s : string) (n : nat) :
  clamp s (Z.of_nat n) = Nat.min n (String.length s).
Proof. unfold clamp. lia. Qed.

Lemma substring_min (s : string) (n : nat) :
  String.substring 0 (Nat.min n (String.length s)) s = String.substring 0 n s.
Proof.
  revert n. induction s as [|c s IH]; intros [|n]; simpl; try reflexivity.
  now rewrite IH.
Qed.

Lemma substring_0 (s : string) (n : nat) :
  substring s 0 (Z.of_nat n) = String.substring 0 n s.
Proof.
  unfold substring. rewrite clamp_nat.
  change (clamp s 0) with (clamp s (Z.of_nat 0)). rewrite clamp_nat. simpl.
  rewrite Nat.sub_0_r. apply substring_min.
Qed.

Lemma substring_prefix (a b : string) :
  String.substring 0 (String.length a) (a +:+ b) = a.
Proof.
  induction a as [|c a IH].
  - now destruct b.
  - rewrite sapp_cons. simpl. now rewrite IH.
Qed.

Lemma substring_all (b : string) :
  String.substring 0 (String.length b) b = b.
Proof. induction b as [|c b IH]; simpl; [reflexivity|]. now rewrite IH. Qed.

Lemma substring_suffix (a b : string) :
  String.substring (String.length a) (String.length b) (a +:+ b) = b.
Proof.
  induction a as [|c a IH].
  - apply substring_all.
  - rewrite sapp_cons. exact IH.
Qed.

Lemma substringFrom_app (a b : string) :
  substringFrom (a +:+ b) (Z.of_nat (String.length a)) = b.
Proof.
  unfold substringFrom, substring. rewrite !clamp_nat, slength_app.
  replace (Nat.min (String.length a) (String.length a + String.length b))
    with (String.length a) by lia.
  rewrite Nat.min_id.
  replace (Nat.min (String.length a) (String.length a + String.length b))
    with (String.length a) by lia.
  replace (Nat.max (String.length a) (String.length a + String.length b)
           - String.length a)%nat with (String.length b) by lia.
  apply substring_suffix.
Qed.

(** ** [parsers.status] *)

Lemma substring_0_0 (t : string) : String.substring 0 0 t = "".
Proof. now destruct t. Qed.

Lemma statusStep_line (st : statusResult) (l : string) :
  parsers.statusStep st (cut l) =
  if nonEmpty l then
    if isUntracked l then
      StatusResult (st_staged st) (st_unstaged st) (st_untracked st ++ [entryOf l])
    else if isStaged l then
      StatusResult (st_staged st ++ [entryOf l]) (st_unstaged st) (st_untracked st)
    else
      StatusResult (st_staged st) (st_unstaged st ++ [entryOf l]) (st_untracked st)
  else st.
Proof.
  unfold parsers.statusStep, cut, entryOf, isUntracked, isStaged, nonEmpty.
  cbn [fst snd].
  change 2 with (Z.of_nat 2). change 1 with (Z.of_nat 1).
  rewrite !substring_0.
  destruct l as [|a [|b t]]; simpl; rewrite ?substring_0_0; simpl;
    [reflexivity| |].
  - destruct (Ascii.eqb a "?"), (Ascii.eqb a "A"); reflexivity.
  - destruct (Ascii.eqb a "?"), (Ascii.eqb b "?"), (Ascii.eqb a "A");
      reflexivity.
Qed.

(** A line takes exactly one of the three routes. *)
Lemma routes_exclusive (l : string) :
  (isUntracked l = true /\ isStaged l = false /\ isUnstaged l = false)
  \/ (isUntracked l = false /\ isStaged l = true /\ isUnstaged l = false)
  \/ (isUntracked l = false /\ isStaged l = false /\ isUnstaged l = true).
Proof.
  unfold isUntracked, isStaged, isUnstaged.
  destruct (startsWith l "??"), (startsWith l "A"); simpl; auto.
Qed.

Lemma status_fold (ls : list string) (st : statusResult) :
  fold_left parsers.statusStep (map cut ls) st =
  StatusResult
    (st_staged st ++ map entryOf (List.filter isStaged (List.filter nonEmpty ls)))
    (st_unstaged st ++ map entryOf (List.filter isUnstaged (List.filter nonEmpty ls)))
    (st_untracked st ++ map entryOf (List.filter isUntracked (List.filter nonEmpty ls))).
Proof.
  revert st. induction ls as [|l ls IH]; intros st.
  - simpl. rewrite !app_nil_r. now destruct st.
  - cbn [map fold_left]. rewrite statusStep_line, IH.
    cbn [List.filter]. destruct (nonEmpty l); [|reflexivity].
    cbn [List.filter].
    destruct (routes_exclusive l) as [(U & S & N)|[(U & S & N)|(U & S & N)]];
      rewrite U, ?S, ?N; cbn [map st_staged st_unstaged st_untracked];
      now rewrite <- ?app_assoc.
Qed.

Lemma filter_three_way (ls : list string) :
  (List.length (List.filter isStaged ls)
   + List.length (List.filter isUnstaged ls)
   + List.length (List.filter isUntracked ls))%nat = List.length ls.
Proof.
  induction ls as [|l ls IH]; [reflexivity|].
  cbn [List.filter]. unfold isStaged at 1, isUnstaged at 1, isUntracked at 1.
  destruct (startsWith l "??"), (startsWith l "A"); simpl; lia.
Qed.

(** C4: every non-empty line of the status text makes one entry in exactly
    one bucket: untracked when its first two characters are "??", staged
    when its first character is "A", unstaged otherwise; the three buckets
    together hold as many entries as there are non-empty lines. *)
Theorem status_buckets (gitstatus : string) :
  let lines := List.filter nonEmpty (split gitstatus LF) in
  let r := parsers.status gitstatus in
  st_untracked r = map entryOf (List.filter isUntracked lines)
  /\ st_staged r = map entryOf (List.filter isStaged lines)
  /\ st_unstaged r = map entryOf (List.filter isUnstaged lines)
  /\ (forall l,
        (isUntracked l = true /\ isStaged l = false /\ isUnstaged l = false)
        \/ (isUntracked l = false /\ isStaged l = true /\ isUnstaged l = false)
        \/ (isUntracked l = false /\ isStaged l = false /\ isUnstaged l = true))
  /\ (List.length (st_staged r) + List.length (st_unstaged r)
      + List.length (st_untracked r))%nat = List.length lines.
Proof.
  intros lines r. subst r. unfold parsers.status.
  change (map (fun s => (substring s 0 2, substringFrom s 3)))
    with (map cut).
  rewrite status_fold. cbn [st_staged st_unstaged st_untracked app].
  fold lines. repeat split.
  - intros l. apply routes_exclusive.
  - rewrite !length_map. apply filter_three_way.
Qed.

(** ** [parsers.branch] *)

Lemma firstIndex_char (c : ascii) (a b : string) (i : nat) :
  mem c a = false ->
  firstIndex (a +:+ String c b) (String c "") i = Some (i + String.length a)%nat.
Proof.
  revert i. induction a as [|x a IH]; intros i H.
  - change ("" +:+ String c b) with (String c b).
    rewrite firstIndex_eq. simpl. rewrite Ascii.eqb_refl. simpl.
    now rewrite Nat.add_0_r.
  - simpl in H. apply orb_false_iff in H as [Hx Ha].
    rewrite sapp_cons, firstIndex_eq. simpl. rewrite Hx. simpl.
    rewrite (IH (S i) Ha). f_equal. lia.
Qed.

Lemma replace_first_char (c : ascii) (a b : string) :
  mem c a = false ->
  replace (a +:+ String c b) (String c "") "" = a +:+ b.
Proof.
  intros H. unfold replace. rewrite (firstIndex_char c a b 0 H).
  cbn [getSubstitution Nat.add]. rewrite substring_prefix.
  change ("" +:+ ?x) with x.
  replace (a +:+ String c b) with ((a +:+ String c "") +:+ b)
    by now rewrite sapp_assoc.
  replace (String.length a + String.length (String c ""))%nat
    with (String.length (a +:+ String c ""))
    by now rewrite slength_app.
  now rewrite substringFrom_app.
Qed.

Lemma truthy_nonEmpty (x : string) : truthy (str x) = nonEmpty x.
Proof. now destruct x. Qed.

Lemma branchStep_other (tree : branchTree) (x : string) :
  mem "*" x = false ->
  parsers.branchStep tree x =
  if nonEmpty x then BranchTree (bt_current tree) (bt_others tree ++ [trim x])
  else tree.
Proof.
  intros H. unfold parsers.branchStep.
  now rewrite indexOf_char, H, truthy_nonEmpty.
Qed.

Lemma branchStep_current (tree : branchTree) (a b : string) :
  mem "*" a = false ->
  parsers.branchStep tree (a +:+ "*" +:+ b)
  = BranchTree (Some (trim (a +:+ b))) (bt_others tree).
Proof.
  intros H. unfold parsers.branchStep.
  change (a +:+ "*" +:+ b) with (a +:+ String "*" b).
  rewrite (replace_first_char "*" a b H), indexOf_char, mem_app.
  cbn [mem]. rewrite Ascii.eqb_refl. cbn [orb]. now rewrite orb_true_r.
Qed.

Lemma branch_fold_others (xs : list string) (tree : branchTree) :
  Forall (fun x => mem "*" x = false) xs ->
  fold_left parsers.branchStep xs tree
  = BranchTree (bt_current tree)
      (bt_others tree ++ map trim (List.filter nonEmpty xs)).
Proof.
  intros H. revert tree. induction H as [|x xs Hx _ IH]; intros tree.
  - simpl. rewrite app_nil_r. now destruct tree.
  - cbn [fold_left List.filter]. rewrite IH, (branchStep_other _ _ Hx).
    destruct (nonEmpty x); [|reflexivity].
    cbn [bt_current bt_others map]. now rewrite <- app_assoc.
Qed.

(** C8: when exactly one line of the branch list contains [*], [current]
    is that line without the (first) [*], trimmed; the line adds nothing to
    [others]; every other non-empty line is in [others], trimmed, in the
    order of the input. *)
Theorem branch_single_current
    (output a b : string) (pre post : list string) :
  split output LF = pre ++ (a +:+ "*" +:+ b) :: post ->
  mem "*" a = false ->
  Forall (fun x => mem "*" x = false) (pre ++ post) ->
  parsers.branch output
  = BranchTree (Some (trim (a +:+ b)))
      (map trim (List.filter nonEmpty (pre ++ post))).
Proof.
  intros Hs Ha Ho. apply Forall_app in Ho as [Hpre Hpost].
  unfold parsers.branch. rewrite Hs, fold_left_app. cbn [fold_left].
  rewrite (branch_fold_others pre _ Hpre), (branchStep_current _ a b Ha).
  rewrite (branch_fold_others post _ Hpost).
  cbn [bt_current bt_others app].
  now rewrite List.filter_app, map_app.
Qed.

Lemma branch_single_current_witness :
  parsers.branch branchExample
  = BranchTree (Some "main") ["develop"; "topic/x"].
Proof.
  apply (branch_single_current branchExample "" " main"
           ["  develop"] ["  topic/x"; ""]).
  - reflexivity.
  - reflexivity.
  - repeat constructor.
Defined.

(** ** [split] on a separator of one code unit *)

Lemma splitGo_char (c : ascii) (s cur : string) :
  splitGo (String c "") s 0 cur =
  (cur +:+ upTo c s)
  :: match afterFirst c s with
     | Some t => splitGo (String c "") t 0 ""
     | None => []
     end.
Proof.
  revert cur. induction s as [|x s IH]; intros cur.
  - simpl. now rewrite sapp_nil_r.
  - cbn [splitGo startsWith upTo afterFirst String.length Nat.sub].
    destruct (Ascii.eqb x c); cbn [andb].
    + now rewrite sapp_nil_r.
    + rewrite IH, sapp_assoc. reflexivity.
Qed.

Lemma split_char (c : ascii) (s : string) :
  split s (String c "") =
  upTo c s :: match afterFirst c s with
              | Some t => split t (String c "")
              | None => []
              end.
Proof. unfold split. now rewrite splitGo_char. Qed.

Lemma upTo_absent (c : ascii) (s : string) :
  mem c s = false -> upTo c s = s /\ afterFirst c s = None.
Proof.
  induction s as [|x s IH]; simpl; [auto|].
  intros H. apply orb_false_iff in H as [Hx Hs]. rewrite Hx.
  destruct (IH Hs) as [-> ->]. auto.
Qed.

Lemma upTo_present (c : ascii) (s : string) :
  mem c s = true -> exists t, afterFirst c s = Some t.
Proof.
  induction s as [|x s IH]; simpl; [discriminate|].
  destruct (Ascii.eqb x c); simpl; eauto.
Qed.

Lemma upTo_app (c : ascii) (a r : string) :
  mem c a = false -> upTo c (a +:+ r) = a +:+ upTo c r.
Proof.
  induction a as [|x a IH]; [reflexivity|].
  intros H. simpl in H. apply orb_false_iff in H as [Hx Ha].
  rewrite !sapp_cons. simpl. now rewrite Hx, (IH Ha).
Qed.

Lemma afterFirst_app (c : ascii) (a r : string) :
  mem c a = false -> afterFirst c (a +:+ String c r) = Some r.
Proof.
  induction a as [|x a IH].
  - intros _. change ("" +:+ String c r) with (String c r).
    simpl. now rewrite Ascii.eqb_refl.
  - intros H. simpl in H. apply orb_false_iff in H as [Hx Ha].
    rewrite sapp_cons. simpl. now rewrite Hx, (IH Ha).
Qed.

Lemma upTo_stop (c : ascii) (a r : string) :
  mem c a = false -> upTo c (a +:+ String c r) = a.
Proof.
  intros H. rewrite (upTo_app c a _ H). simpl.
  now rewrite Ascii.eqb_refl, sapp_nil_r.
Qed.

(** ** [parsers.remotes] *)

Lemma remotesStep_no_tab (m : gmap string jsval) (l : string) :
  l <> "" -> mem tab l = false ->
  parsers.remotesStep m l = Throw TypeError.
Proof.
  intros Hl Ht. unfold parsers.remotesStep.
  change TAB with (String tab ""). rewrite split_char.
  destruct (upTo_absent tab l Ht) as [-> ->].
  destruct l; [congruence|reflexivity].
Qed.

Lemma remotesStep_cases (m : gmap string jsval) (l : string) :
  parsers.remotesStep m l = Throw TypeError
  \/ exists m', parsers.remotesStep m l = Return m'.
Proof.
  unfold parsers.remotesStep.
  destruct (truthy _); [|eauto].
  destruct (at_index (split l TAB) 1); simpl; eauto.
Qed.

Lemma forEachRemote_throws (pre post : list string) (l : string)
    (m : gmap string jsval) :
  (forall m', parsers.remotesStep m' l = Throw TypeError) ->
  parsers.forEachRemote m (pre ++ l :: post) = Throw TypeError.
Proof.
  intros H. revert m. induction pre as [|x pre IH]; intros m; simpl.
  - now rewrite H.
  - destruct (remotesStep_cases m x) as [->|[m' ->]]; simpl; auto.
Qed.

(** C10: when the text has a non-empty line without a tab, the second
    field of that line is [undefined] and [parsers.remotes] throws the
    [TypeError] of the runtime; the line is not passed over, and the
    exception is not a [ParseError]. *)
Theorem remotes_line_without_tab_throws (output l : string) :
  In l (split output LF) ->
  l <> "" ->
  mem tab l = false ->
  parsers.remotes output = Throw TypeError
  /\ parsers.remotes output <> Throw ParseError.
Proof.
  intros Hin Hl Ht.
  assert (E : parsers.remotes output = Throw TypeError).
  { apply in_split in Hin as (pre & post & Hs).
    unfold parsers.remotes. rewrite Hs.
    apply forEachRemote_throws. intros m'. now apply remotesStep_no_tab. }
  split; [exact E|]. rewrite E. discriminate.
Qed.

Lemma remotes_line_without_tab_throws_witness :
  parsers.remotes remotesNoTabExample = Throw TypeError
  /\ parsers.remotes remotesNoTabExample <> Throw ParseError.
Proof.
  apply (remotes_line_without_tab_throws remotesNoTabExample
           "upstream https://example.com/b.git (fetch)").
  - right. left. reflexivity.
  - discriminate.
  - reflexivity.
Defined.

Lemma lookup_setProperty_ne (m : gmap string jsval) (k k' : string) (v : jsval) :
  k' <> k -> setProperty m k v !! k' = m !! k'.
Proof.
  intros H. unfold setProperty. destruct (decide (k = "__proto__")); [reflexivity|].
  apply lookup_insert_ne. congruence.
Qed.

Lemma lookup_setProperty_eq (m : gmap string jsval) (k : string) (v : jsval) :
  k <> "__proto__" -> setProperty m k v !! k = Some v.
Proof.
  intros H. unfold setProperty. destruct (decide (k = "__proto__")); [congruence|].
  apply lookup_insert_eq.
Qed.

Lemma remotesStep_wellFormed (m : gmap string jsval) (l : string) :
  wellFormed l ->
  exists m', parsers.remotesStep m l = Return m'
             /\ forall k, k <> firstField l -> m' !! k = m !! k.
Proof.
  intros W. unfold parsers.remotesStep.
  change TAB with (String tab ""). rewrite split_char.
  cbn [at_index nth_error]. fold (firstField l).
  destruct (firstField l) as [|c f] eqn:F.
  - exists m. split; [reflexivity|auto].
  - destruct W as [W|W]; [congruence|].
    destruct (upTo_present tab l W) as [t ->].
    rewrite split_char. cbn [truthy propertyKey at_index nth_error receiver bind].
    eexists. split; [reflexivity|].
    intros k Hk. now apply lookup_setProperty_ne.
Qed.

Lemma remotesStep_named (m : gmap string jsval) (name url tail : string) :
  name <> "" -> mem tab name = false ->
  mem " " url = false -> mem tab url = false ->
  parsers.remotesStep m (name +:+ TAB +:+ url +:+ " " +:+ tail)
  = Return (setProperty m name (str url)).
Proof.
  intros Hn Hnt Hus Hut. unfold parsers.remotesStep.
  change (name +:+ TAB +:+ url +:+ " " +:+ tail)
    with (name +:+ String tab (url +:+ String " " tail)).
  change TAB with (String tab ""). rewrite split_char.
  rewrite (upTo_stop tab name _ Hnt), (afterFirst_app tab name _ Hnt).
  rewrite split_char. cbn [at_index nth_error].
  destruct name as [|c name]; [congruence|].
  cbn [truthy propertyKey receiver bind].
  rewrite split_char. cbn [at_index nth_error].
  rewrite (upTo_app tab url _ Hut). cbn [upTo]. 
  change (Ascii.eqb " " tab) with false. cbv iota.
  now rewrite (upTo_stop " " url _ Hus).
Qed.

Lemma forEachRemote_app (xs ys : list string) (m : gmap string jsval) :
  parsers.forEachRemote m (xs ++ ys)
  = bind (parsers.forEachRemote m xs) (fun m' => parsers.forEachRemote m' ys).
Proof.
  revert m. induction xs as [|x xs IH]; intros m; simpl; [reflexivity|].
  destruct (parsers.remotesStep m x); simpl; auto.
Qed.

Lemma forEachRemote_wellFormed (ls : list string) (m : gmap string jsval) :
  Forall wellFormed ls -> exists m', parsers.forEachRemote m ls = Return m'.
Proof.
  intros H. revert m. induction H as [|l ls Hl _ IH]; intros m; simpl; [eauto|].
  destruct (remotesStep_wellFormed m l Hl) as (m1 & -> & _). simpl. apply IH.
Qed.

Lemma forEachRemote_keeps (name : string) (ls : list string)
    (m : gmap string jsval) :
  Forall wellFormed ls ->
  Forall (fun l => firstField l <> name) ls ->
  exists m', parsers.forEachRemote m ls = Return m' /\ m' !! name = m !! name.
Proof.
  intros H. revert m. induction H as [|l ls Hl _ IH]; intros m Hn; simpl; [eauto|].
  apply Forall_cons in Hn as [Hl' Hn].
  destruct (remotesStep_wellFormed m l Hl) as (m1 & -> & K). simpl.
  destruct (IH m1 Hn) as (m2 & -> & E).
  exists m2. split; [reflexivity|]. rewrite E. apply K. congruence.
Qed.

(** Last write wins, for every remote name but [__proto__]: when two lines
    name the same remote and no later line names it, the result binds the
    name to the URL of the later of the two lines. *)
Lemma remotes_last_write_wins
    (output name url1 tail1 url2 tail2 : string) (l1 l2 l3 : list string) :
  split output LF =
    l1 ++ (name +:+ TAB +:+ url1 +:+ " " +:+ tail1)
       :: l2 ++ (name +:+ TAB +:+ url2 +:+ " " +:+ tail2) :: l3 ->
  name <> "" -> mem tab name = false -> name <> "__proto__" ->
  mem " " url2 = false -> mem tab url2 = false ->
  Forall wellFormed (l1 ++ l2 ++ l3) ->
  Forall (fun l => firstField l <> name) l3 ->
  exists m, parsers.remotes output = Return m /\ m !! name = Some (str url2).
Proof.
  intros Hs Hn Hnt Hp Hus Hut W Hl3.
  apply Forall_app in W as [W1 W]. apply Forall_app in W as [W2 W3].
  assert (Wa : wellFormed (name +:+ TAB +:+ url1 +:+ " " +:+ tail1)).
  { right. rewrite mem_app.
    change (TAB +:+ url1 +:+ " " +:+ tail1)
      with (String tab (url1 +:+ " " +:+ tail1)).
    simpl. now rewrite orb_true_r. }
  unfold parsers.remotes. rewrite Hs.
  rewrite forEachRemote_app.
  destruct (forEachRemote_wellFormed l1 ∅ W1) as [m1 ->]. simpl.
  destruct (remotesStep_wellFormed m1 _ Wa) as (m2 & -> & _). simpl.
  rewrite forEachRemote_app.
  destruct (forEachRemote_wellFormed l2 m2 W2) as [m3 ->]. simpl.
  rewrite (remotesStep_named m3 name url2 tail2 Hn Hnt Hus Hut). simpl.
  destruct (forEachRemote_keeps name l3 (setProperty m3 name (str url2)) W3 Hl3)
    as (m4 & -> & E).
  exists m4. split; [reflexivity|].
  rewrite E. now apply lookup_setProperty_eq.
Qed.

Example remotes_last_write_wins_example :
  exists m, parsers.remotes remotesExample = Return m
            /\ m !! "origin" = Some (str "https://example.com/b.git").
Proof.
  apply (remotes_last_write_wins remotesExample "origin"
           "https://example.com/a.git" "(fetch)"
           "https://example.com/b.git" "(push)" [] [] [""]).
  - reflexivity.
  - discriminate.
  - reflexivity.
  - discriminate.
  - reflexivity.
  - reflexivity.
  - repeat constructor.
  - repeat constructor. discriminate.
Qed.

(** C9 at the remote name [__proto__]: both lines are taken, neither
    assignment creates a property, and the result binds the name to no
    URL. *)
Theorem remotes_proto_name_not_bound :
  exists m, parsers.remotes remotesProtoExample = Return m
            /\ m !! "__proto__" = None.
Proof. exists ∅. split; [vm_compute; reflexivity|reflexivity]. Qed.

(** * Further properties of the parsers *)

(** ** The removal loop of [parsers.tag] and [parsers.syncErr] *)

Lemma spliceEmpty_out_of_range (fuel i : nat) (a : list string) :
  (List.length a <= i)%nat -> parsers.spliceEmpty fuel i a = a.
Proof.
  intros H. destruct fuel; simpl; [reflexivity|].
  now rewrite (proj2 (lookup_ge_None a i)) by lia.
Qed.

Lemma spliceEmpty_sweep (fuel : nat) (pre a : list string) :
  (List.length a <= fuel)%nat ->
  parsers.spliceEmpty fuel (List.length pre) (pre ++ a) = pre ++ sweep a.
Proof.
  revert pre a. induction fuel as [|fuel IH]; intros pre a H.
  - destruct a; [reflexivity|simpl in H; lia].
  - destruct a as [|x r].
    + apply spliceEmpty_out_of_range. rewrite app_nil_r. lia.
    + cbn [parsers.spliceEmpty sweep].
      rewrite list_lookup_middle by reflexivity.
      destruct (String.length x =? 0)%nat.
      * replace (delete (List.length pre) (pre ++ x :: r)) with (pre ++ r).
        2:{ clear. induction pre as [|p pre IHp]; [reflexivity|].
            simpl. now rewrite <- IHp. }
        destruct r as [|y r'].
        { apply spliceEmpty_out_of_range. rewrite app_nil_r. lia. }
        replace (pre ++ y :: r') with ((pre ++ [y]) ++ r')
          by now rewrite <- app_assoc.
        replace (S (List.length pre)) with (List.length (pre ++ [y]))
          by (rewrite List.length_app; simpl; lia).
        rewrite IH by (simpl in H; lia). now rewrite <- app_assoc.
      * replace (pre ++ x :: r) with ((pre ++ [x]) ++ r)
          by now rewrite <- app_assoc.
        replace (S (List.length pre)) with (List.length (pre ++ [x]))
          by (rewrite List.length_app; simpl; lia).
        rewrite IH by (simpl in H; lia). now rewrite <- app_assoc.
Qed.

Lemma length_zero_empty (x : string) :
  (String.length x =? 0)%nat = true -> x = "".
Proof. destruct x; [reflexivity|discriminate]. Qed.

Lemma adjacentEmpty_cons (x : string) (r : list string) :
  (String.length x =? 0)%nat = false ->
  adjacentEmpty (x :: r) = adjacentEmpty r.
Proof. intros H. destruct r; [reflexivity|]. cbn [adjacentEmpty]. now rewrite H. Qed.

Lemma adjacentEmpty_cons_empty (x y : string) (r : list string) :
  (String.length x =? 0)%nat = true ->
  adjacentEmpty (x :: y :: r)
  = (String.length y =? 0)%nat || adjacentEmpty (y :: r).
Proof. intros H. cbn [adjacentEmpty]. now rewrite H. Qed.

Lemma sweep_empty_iff (a : list string) :
  In "" (sweep a) <-> adjacentEmpty a = true.
Proof.
  remember (List.length a) as n eqn:Hn.
  assert (Hle : (List.length a <= n)%nat) by lia. clear Hn.
  revert a Hle. induction n as [|n IH]; intros a Hle.
  - destruct a; [|simpl in Hle; lia]. simpl. split; [tauto|discriminate].
  - destruct a as [|x r]; [simpl; split; [tauto|discriminate]|].
    simpl in Hle. cbn [sweep].
    destruct (String.length x =? 0)%nat eqn:Ex.
    + destruct r as [|y r']; [simpl; split; [tauto|discriminate]|].
      simpl in Hle. rewrite (adjacentEmpty_cons_empty x y r' Ex).
      destruct (String.length y =? 0)%nat eqn:Ey.
      * cbn [orb]. split; [reflexivity|]. intros _. left.
        now apply length_zero_empty.
      * cbn [orb]. rewrite (adjacentEmpty_cons y r' Ey), <- (IH r') by lia.
        assert (Hy : y <> "") by (intros ->; discriminate).
        simpl. split; [intros [E|E]; [congruence|exact E]|auto].
    + rewrite (adjacentEmpty_cons x r Ex), <- (IH r) by lia.
      assert (Hx : x <> "") by (intros ->; discriminate).
      simpl. split; [intros [E|E]; [congruence|exact E]|auto].
Qed.

(** X3: the result of [parsers.tag] holds an empty string exactly when the
    text, cut at its line ends, has two empty pieces in a row. *)
Theorem tag_empty_iff (output : string) :
  In "" (parsers.tag output)
  <-> adjacentEmpty (splitRe output reNewline) = true.
Proof.
  unfold parsers.tag.
  rewrite (spliceEmpty_sweep _ [] (splitRe output reNewline)) by lia.
  apply sweep_empty_iff.
Qed.

(** X4: the same for [parsers.syncErr], whose pieces are cut at CR LF. *)
Theorem syncErr_empty_iff (output : string) :
  In "" (parsers.syncErr output)
  <-> adjacentEmpty (split output CRLF) = true.
Proof.
  unfold parsers.syncErr.
  rewrite (spliceEmpty_sweep _ [] (split output CRLF)) by lia.
  apply sweep_empty_iff.
Qed.

Lemma splitGo_CRLF_no_cr (s cur : string) :
  mem cr s = false -> splitGo CRLF s 0 cur = [cur +:+ s].
Proof.
  revert cur. induction s as [|c s IH]; intros cur H.
  - simpl. now rewrite sapp_nil_r.
  - simpl in H. apply orb_false_iff in H as [Hc Hs].
    cbn [splitGo]. change CRLF with (String cr (String "010" "")).
    cbn [startsWith]. rewrite Hc. cbn [andb].
    fold CRLF. change (String cr (String "010" "")) with CRLF.
    rewrite (IH _ Hs), sapp_assoc. reflexivity.
Qed.

(** X5: [parsers.syncErr] cuts at CR LF only.  A text without carriage
    return comes back whole, line feeds included, as the single entry of
    the result; the empty text gives the empty result. *)
Theorem syncErr_without_cr (output : string) :
  mem cr output = false ->
  parsers.syncErr output = if nonEmpty output then [output] else [].
Proof.
  intros H. unfold parsers.syncErr, split.
  rewrite (splitGo_CRLF_no_cr output "" H).
  change ("" +:+ output) with output.
  unfold nonEmpty. simpl. now destruct (String.length output =? 0)%nat.
Qed.

Lemma syncErr_without_cr_witness :
  parsers.syncErr ("error: failed to push" +:+ LF +:+ "hint: pull first")
  = ["error: failed to push" +:+ LF +:+ "hint: pull first"].
Proof.
  apply (syncErr_without_cr ("error: failed to push" +:+ LF +:+ "hint: pull first")).
  reflexivity.
Defined.

(** ** [parsers.commit], the success path *)

Lemma greedyStar_max {R : Type} (p : ascii -> bool) (a b : string) (pos : nat)
    (k : string -> nat -> option R) (r : R) :
  every p a = true ->
  k b (pos + String.length a)%nat = Some r ->
  (forall c b', b = String c b' -> p c = false) ->
  greedyStar p (a +:+ b) pos k = Some r.
Proof.
  revert pos. induction a as [|x a IH]; intros pos Ha Hk Hb.
  - change ("" +:+ b) with b. rewrite Nat.add_0_r in Hk.
    destruct b as [|c b']; simpl; [exact Hk|].
    now rewrite (Hb c b' eq_refl).
  - simpl in Ha. apply andb_true_iff in Ha as [Hx Ha].
    rewrite sapp_cons. simpl. rewrite Hx.
    rewrite (IH (S pos) Ha); [reflexivity| |exact Hb].
    simpl in Hk. now replace (S pos + String.length a)%nat
      with (pos + S (String.length a))%nat by lia.
Qed.

Lemma not_mem_every (x : ascii) (s : string) :
  mem x s = false -> every (fun c => negb (Ascii.eqb c x)) s = true.
Proof.
  induction s as [|c s IH]; simpl; [reflexivity|].
  intros H. apply orb_false_iff in H as [H1 H2]. now rewrite H1, IH.
Qed.

Lemma substring_prefix_app (a b : string) (n : nat) :
  n = String.length a -> String.substring 0 n (a +:+ b) = a.
Proof. intros ->. apply substring_prefix. Qed.

Lemma matchAt_bracket_token (mid post : string) (pos : nat) :
  mid <> "" -> mem "]" mid = false ->
  exists e,
    matchAt reBracket ("[" +:+ mid +:+ "]" +:+ post) pos
    = Some (Found pos e ("[" +:+ mid +:+ "]") (Some mid)).
Proof.
  intros Hne Hm. destruct mid as [|x mid]; [congruence|].
  simpl in Hm. apply orb_false_iff in Hm as [Hx Hm].
  exists (S (S (S pos + String.length mid))).
  unfold matchAt, reBracket.
  change ("[" +:+ String x mid +:+ "]" +:+ post)
    with (String "[" (String x (mid +:+ String "]" post))).
  cbn [run]. rewrite Ascii.eqb_refl, Hx. cbn [negb].
  erewrite (greedyStar_max _ mid (String "]" post)); [reflexivity| | |].
  - now apply not_mem_every.
  - cbn beta. rewrite Ascii.eqb_refl. f_equal. f_equal.
    + replace (String "[" (String x (mid +:+ String "]" post)))
        with (("[" +:+ String x mid +:+ "]") +:+ post)
        by now rewrite !sapp_assoc.
      apply substring_prefix_app.
      change ("[" +:+ String x mid +:+ "]")
        with (String "[" (String x (mid +:+ "]"))).
      simpl. rewrite slength_app. simpl. lia.
    + f_equal.
      change (String x (mid +:+ String "]" post))
        with (String x mid +:+ String "]" post).
      apply substring_prefix_app. simpl. lia.
  - intros c b' E. injection E as <- _. reflexivity.
Qed.

Lemma matchAt_bracket_other (s : string) (pos : nat) :
  (forall s', s <> String "[" s') -> matchAt reBracket s pos = None.
Proof.
  intros H. unfold matchAt, reBracket. cbn [run].
  destruct s as [|c s]; [reflexivity|].
  destruct (Ascii.eqb_spec c "["); [|reflexivity].
  subst c. now destruct (H s).
Qed.

Lemma search_bracket_skip (pre s : string) (pos : nat) :
  mem "[" pre = false ->
  search reBracket (pre +:+ s) pos
  = search reBracket s (pos + String.length pre).
Proof.
  revert pos. induction pre as [|c pre IH]; intros pos H.
  - change ("" +:+ s) with s. simpl. now rewrite Nat.add_0_r.
  - simpl in H. apply orb_false_iff in H as [Hc Hp].
    rewrite sapp_cons. cbn [search].
    rewrite matchAt_bracket_other.
    + rewrite (IH (S pos) Hp). f_equal. simpl. lia.
    + intros s' E. injection E as -> _. now rewrite Ascii.eqb_refl in Hc.
Qed.

Lemma search_here (r : regex) (s : string) (pos : nat) (m : found) :
  matchAt r s pos = Some m -> search r s pos = Some m.
Proof. intros H. destruct s; simpl; now rewrite H. Qed.

Lemma matchG_head (r : regex) (s : string) (m : found) :
  search r s 0 = Some m -> exists tl, matchG s r = Some (mtext m :: tl).
Proof.
  intros H. unfold matchG, matches. cbn [allMatches]. rewrite H.
  eexists. reflexivity.
Qed.

(** The first bracketed token of a line is what [match] finds first. *)
Lemma matchG_bracket_first (pre mid post : string) :
  mem "[" pre = false -> mid <> "" -> mem "]" mid = false ->
  exists tl,
    matchG (pre +:+ "[" +:+ mid +:+ "]" +:+ post) reBracket
    = Some (("[" +:+ mid +:+ "]") :: tl).
Proof.
  intros Hp Hne Hm.
  destruct (matchAt_bracket_token mid post (0 + String.length pre) Hne Hm)
    as [e He].
  apply search_here in He. rewrite <- (search_bracket_skip pre _ 0 Hp) in He.
  apply matchG_head in He. exact He.
Qed.

Lemma substring_middle (a m b : string) :
  String.substring (String.length a) (String.length m) (a +:+ m +:+ b) = m.
Proof.
  induction a as [|c a IH].
  - change ("" +:+ m +:+ b) with (m +:+ b). apply substring_prefix.
  - rewrite sapp_cons. exact IH.
Qed.

Lemma substring_inner (mid : string) :
  substring ("[" +:+ mid +:+ "]") 1
    (Z.of_nat (String.length ("[" +:+ mid +:+ "]")) - 1) = mid.
Proof.
  unfold substring.
  assert (L : String.length ("[" +:+ mid +:+ "]") = S (S (String.length mid))).
  { change ("[" +:+ mid +:+ "]") with (String "[" (mid +:+ "]")).
    simpl. rewrite slength_app. simpl. lia. }
  replace (Z.of_nat (String.length ("[" +:+ mid +:+ "]")) - 1)
    with (Z.of_nat (S (String.length mid))) by lia.
  change 1 with (Z.of_nat 1). rewrite !clamp_nat, L.
  replace (Nat.min (Nat.min 1 (S (S (String.length mid))))
             (Nat.min (S (String.length mid)) (S (S (String.length mid)))))
    with (String.length "[") by (simpl; lia).
  replace (Nat.max _ _ - String.length "[")%nat with (String.length mid)
    by (simpl; lia).
  apply substring_middle.
Qed.

Lemma commit_bracket (output line0 line1 pre mid post : string)
    (ops : list string) :
  ~ contains output "nothing to commit" ->
  ~ contains output "no changes added to commit" ->
  split output LF = line0 :: line1 :: ops ->
  line0 = pre +:+ "[" +:+ mid +:+ "]" +:+ post ->
  mem "[" pre = false -> mid <> "" -> mem "]" mid = false ->
  parsers.commit output
  = Return (Committed
      (CommitInfo (str (upTo " " mid))
         (match afterFirst " " mid with
          | Some t => str (upTo " " t)
          | None => undefined
          end)
         (str (upTo " " line1)) ops)).
Proof.
  intros H1 H2 Hs -> Hp Hne Hm. unfold parsers.commit.
  rewrite (indexOf_absent _ _ H1), (indexOf_absent _ _ H2), Hs.
  cbn [orb at_index nth_error receiver bind].
  destruct (matchG_bracket_first pre mid post Hp Hne Hm) as [tl ->].
  cbn [elementOf at_index nth_error receiver bind].
  rewrite substring_inner.
  change " " with (String " "%char "") at 1 2 3.
  rewrite !split_char. cbn [at_index nth_error drop].
  destruct (afterFirst " " mid) as [t|]; [|reflexivity].
  now rewrite split_char.
Qed.

(** X6: the success path of [parsers.commit].  When the text has neither
    rejection phrase, at least two lines, and the first bracketed token of
    line 0 reads [branch], a space, and more text, the result is a record:
    its branch is [branch], its commit is the text after that space up to
    the next space, its changed field is line 1 up to its first space, and
    its operations are the lines from index 2 on. *)
Theorem commit_success (output line1 pre branch rest post : string)
    (ops : list string) :
  ~ contains output "nothing to commit" ->
  ~ contains output "no changes added to commit" ->
  split output LF
  = (pre +:+ "[" +:+ branch +:+ " " +:+ rest +:+ "]" +:+ post) :: line1 :: ops ->
  mem "[" pre = false ->
  mem " " branch = false -> mem "]" branch = false -> mem "]" rest = false ->
  parsers.commit output
  = Return (Committed
      (CommitInfo (str branch) (str (upTo " " rest)) (str (upTo " " line1)) ops)).
Proof.
  intros H1 H2 Hs Hp Hb Hb' Hr.
  assert (E : pre +:+ "[" +:+ branch +:+ " " +:+ rest +:+ "]" +:+ post
              = pre +:+ "[" +:+ (branch +:+ String " " rest) +:+ "]" +:+ post).
  { f_equal. change ("[" +:+ ?x) with (String "[" x). f_equal.
    now rewrite sapp_assoc. }
  rewrite (commit_bracket output _ line1 pre (branch +:+ String " " rest) post
             ops H1 H2 Hs E Hp).
  - now rewrite (upTo_stop " " branch rest Hb), (afterFirst_app " " branch rest Hb).
  - destruct branch; discriminate.
  - rewrite mem_app, Hb'. simpl. exact Hr.
Qed.

Lemma commit_success_witness :
  parsers.commit commitExample
  = Return (Committed
      (CommitInfo (str "main") (str "abc1234") (str "")
         [" create mode foo.txt"])).
Proof.
  apply (commit_success commitExample " 1 file changed, 2 insertions(+)"
           "" "main" "abc1234" " msg" [" create mode foo.txt"]).
  - apply not_contains. reflexivity.
  - apply not_contains. reflexivity.
  - reflexivity.
  - reflexivity.
  - reflexivity.
  - reflexivity.
  - reflexivity.
Defined.

(** X7: when the bracketed token holds no space, the branch field is the
    whole token and the commit field is [undefined]. *)
Theorem commit_without_hash (output line1 pre mid post : string)
    (ops : list string) :
  ~ contains output "nothing to commit" ->
  ~ contains output "no changes added to commit" ->
  split output LF = (pre +:+ "[" +:+ mid +:+ "]" +:+ post) :: line1 :: ops ->
  mem "[" pre = false -> mid <> "" ->
  mem "]" mid = false -> mem " " mid = false ->
  parsers.commit output
  = Return (Committed
      (CommitInfo (str mid) undefined (str (upTo " " line1)) ops)).
Proof.
  intros H1 H2 Hs Hp Hne Hm Hsp.
  rewrite (commit_bracket output _ line1 pre mid post ops H1 H2 Hs eq_refl
             Hp Hne Hm).
  now destruct (upTo_absent " " mid Hsp) as [-> ->].
Qed.

Lemma commit_without_hash_witness :
  parsers.commit ("[detached] msg" +:+ LF +:+ "1 file changed")
  = Return (Committed
      (CommitInfo (str "detached") undefined (str "1") [])).
Proof.
  apply (commit_without_hash ("[detached] msg" +:+ LF +:+ "1 file changed")
           "1 file changed" "" "detached" " msg" []).
  - apply not_contains. reflexivity.
  - apply not_contains. reflexivity.
  - reflexivity.
  - reflexivity.
  - discriminate.
  - reflexivity.
  - reflexivity.
Defined.

Lemma split_no_separator (c : ascii) (s : string) :
  mem c s = false -> split s (String c "") = [s].
Proof.
  intros H. rewrite split_char. now destruct (upTo_absent c s H) as [-> ->].
Qed.

(** X8: a text of a single line that has neither rejection phrase makes
    [parsers.commit] throw [TypeError], with or without a bracketed token:
    there is no line 1 to split. *)
Theorem commit_single_line_throws (output : string) :
  ~ contains output "nothing to commit" ->
  ~ contains output "no changes added to commit" ->
  mem "010" output = false ->
  parsers.commit output = Throw TypeError.
Proof.
  intros H1 H2 Hl. unfold parsers.commit.
  rewrite (indexOf_absent _ _ H1), (indexOf_absent _ _ H2).
  change LF with (String "010"%char ""). rewrite (split_no_separator _ _ Hl).
  cbn [orb at_index nth_error receiver bind].
  destruct (matchG output reBracket) as [a|]; [|reflexivity].
  cbn [elementOf bind]. now destruct (at_index a 0).
Qed.

Lemma commit_single_line_throws_witness :
  parsers.commit "[main abc1234] msg" = Throw TypeError.
Proof.
  apply (commit_single_line_throws "[main abc1234] msg").
  - apply not_contains. reflexivity.
  - apply not_contains. reflexivity.
  - reflexivity.
Defined.

(** X9: whatever the text, the only exception [parsers.commit] lets out is
    the [TypeError] of the runtime. *)
Theorem commit_throws_only_TypeError (output : string) (e : error) :
  parsers.commit output = Throw e -> e = TypeError.
Proof.
  unfold parsers.commit.
  destruct (_ || _); [discriminate|].
  destruct (at_index (split output LF) 0) as [|line0]; cbn [receiver bind];
    [congruence|].
  destruct (matchG line0 reBracket) as [a|]; cbn [elementOf bind];
    [|congruence].
  destruct (at_index a 0); cbn [receiver bind]; [congruence|].
  destruct (at_index (split output LF) 1); cbn [receiver bind];
    [congruence|discriminate].
Qed.

Lemma commit_throws_only_TypeError_witness :
  parsers.commit "no token" = Throw TypeError /\ TypeError = TypeError.
Proof.
  split; [reflexivity|].
  apply (commit_throws_only_TypeError "no token" TypeError). reflexivity.
Defined.

(** ** [parsers.branch], any number of starred lines *)

Lemma branchStep_starred (tree : branchTree) (l : string) :
  mem "*" l = true ->
  parsers.branchStep tree l
  = BranchTree (Some (trim (replace l "*" ""))) (bt_others tree).
Proof.
  intros H. unfold parsers.branchStep. now rewrite indexOf_char, H.
Qed.

Lemma branch_fold_any (xs : list string) (tree : branchTree) :
  bt_others (fold_left parsers.branchStep xs tree)
  = bt_others tree ++ map trim (List.filter isOther xs).
Proof.
  revert tree. induction xs as [|x xs IH]; intros tree.
  - simpl. now rewrite app_nil_r.
  - cbn [fold_left List.filter]. rewrite IH. unfold isOther at 2.
    destruct (mem "*" x) eqn:E.
    + now rewrite (branchStep_starred _ _ E).
    + rewrite (branchStep_other _ _ E). cbn [negb andb].
      destruct (nonEmpty x); [|reflexivity].
      cbn [bt_others map]. now rewrite <- app_assoc.
Qed.

(** X10: [others] holds the lines that are not empty and have no [*],
    trimmed, in the order of the text, however many lines have a [*]. *)
Theorem branch_others (output : string) :
  bt_others (parsers.branch output)
  = map trim (List.filter isOther (split output LF)).
Proof. unfold parsers.branch. now rewrite branch_fold_any. Qed.

(** X11: the last line with a [*] wins.  When a line with a [*] is followed
    by lines without one, [current] is that line without its first [*],
    trimmed, whatever the lines before it are. *)
Theorem branch_last_star_wins
    (output a b : string) (pre post : list string) :
  split output LF = pre ++ (a +:+ "*" +:+ b) :: post ->
  mem "*" a = false ->
  Forall (fun x => mem "*" x = false) post ->
  bt_current (parsers.branch output) = Some (trim (a +:+ b)).
Proof.
  intros Hs Ha Hpost. unfold parsers.branch.
  rewrite Hs, fold_left_app. cbn [fold_left].
  rewrite (branchStep_current _ a b Ha), (branch_fold_others post _ Hpost).
  reflexivity.
Qed.

Lemma branch_last_star_wins_witness :
  bt_current (parsers.branch ("* old" +:+ LF +:+ "* new" +:+ LF +:+ "  dev"))
  = Some "new".
Proof.
  apply (branch_last_star_wins ("* old" +:+ LF +:+ "* new" +:+ LF +:+ "  dev")
           "" " new" ["* old"] ["  dev"]).
  - reflexivity.
  - reflexivity.
  - repeat constructor.
Defined.

Lemma splitGo_pieces_without (x c : ascii) (s cur : string) :
  mem x cur = false -> mem x s = false ->
  Forall (fun l => mem x l = false) (splitGo (String c "") s 0 cur).
Proof.
  revert cur. induction s as [|y s IH]; intros cur Hc Hs.
  - simpl. now repeat constructor.
  - simpl in Hs. apply orb_false_iff in Hs as [Hy Hs].
    cbn [splitGo startsWith String.length Nat.sub].
    destruct (Ascii.eqb y c); cbn [andb].
    + constructor; [exact Hc|]. now apply IH.
    + apply IH; [|exact Hs]. rewrite mem_app, Hc. simpl. now rewrite Hy.
Qed.

Lemma split_pieces_without (x c : ascii) (s : string) :
  mem x s = false ->
  Forall (fun l => mem x l = false) (split s (String c "")).
Proof. intros H. now apply splitGo_pieces_without. Qed.

(** X12: without any [*] in the text, [current] stays [null] and [others]
    holds every non-empty line, trimmed. *)
Theorem branch_without_star (output : string) :
  mem "*" output = false ->
  parsers.branch output
  = BranchTree None (map trim (List.filter nonEmpty (split output LF))).
Proof.
  intros H. unfold parsers.branch.
  now rewrite (branch_fold_others _ _ (split_pieces_without "*" "010" output H)).
Qed.

Lemma branch_without_star_witness :
  parsers.branch ("  dev" +:+ LF +:+ "  main" +:+ LF)
  = BranchTree None ["dev"; "main"].
Proof.
  apply (branch_without_star ("  dev" +:+ LF +:+ "  main" +:+ LF)).
  reflexivity.
Defined.

(** ** [parsers.remotes], which texts it takes and what it binds *)

Lemma remotesStep_not_wellFormed (m : gmap string jsval) (l : string) :
  ~ wellFormed l -> parsers.remotesStep m l = Throw TypeError.
Proof.
  intros H. apply remotesStep_no_tab.
  - intros ->. apply H. left. reflexivity.
  - destruct (mem tab l) eqn:E; [|reflexivity]. exfalso. apply H. now right.
Qed.

Lemma wellFormed_dec (l : string) : wellFormed l \/ ~ wellFormed l.
Proof.
  unfold wellFormed.
  destruct (String.string_dec (firstField l) "") as [E|E]; [auto|].
  destruct (mem tab l); [auto|].
  right. intros [H|H]; [contradiction|discriminate].
Qed.

Lemma forEachRemote_result (ls : list string) (m : gmap string jsval) :
  (Forall wellFormed ls /\ exists m', parsers.forEachRemote m ls = Return m')
  \/ (~ Forall wellFormed ls /\ parsers.forEachRemote m ls = Throw TypeError).
Proof.
  revert m. induction ls as [|l ls IH]; intros m.
  - left. split; [constructor|]. simpl. eauto.
  - destruct (wellFormed_dec l) as [W|W].
    + destruct (remotesStep_wellFormed m l W) as (m1 & E & _).
      simpl. rewrite E. simpl.
      destruct (IH m1) as [[F R]|[F R]].
      * left. split; [now constructor|exact R].
      * right. split; [|exact R]. intros F'. apply F.
        now apply Forall_cons in F' as [_ F'].
    + right. split.
      * intros F. now apply Forall_cons in F as [F _].
      * simpl. now rewrite (remotesStep_not_wellFormed m l W).
Qed.

(** X14: [parsers.remotes] returns a mapping exactly when every line of the
    text either starts with a tab (or is empty) or contains a tab; in every
    other case it throws [TypeError]. *)
Theorem remotes_returns_iff (output : string) :
  ((exists m, parsers.remotes output = Return m)
   <-> Forall wellFormed (split output LF))
  /\ (parsers.remotes output = Throw TypeError
      <-> ~ Forall wellFormed (split output LF)).
Proof.
  unfold parsers.remotes.
  destruct (forEachRemote_result (split output LF) ∅) as [[F [m R]]|[F R]];
    rewrite R.
  - split; split; eauto; [discriminate|contradiction].
  - split; split; auto; [intros [m E]; discriminate|contradiction].
Qed.

Lemma setProperty_proto (m : gmap string jsval) (k : string) (v : jsval) :
  m !! "__proto__" = None -> setProperty m k v !! "__proto__" = None.
Proof.
  intros H. unfold setProperty.
  destruct (decide (k = "__proto__")); [exact H|].
  now rewrite lookup_insert_ne.
Qed.

Lemma remotesStep_proto (m m' : gmap string jsval) (l : string) :
  m !! "__proto__" = None ->
  parsers.remotesStep m l = Return m' -> m' !! "__proto__" = None.
Proof.
  intros H. unfold parsers.remotesStep.
  destruct (truthy _); [|intros E; injection E as <-; exact H].
  destruct (at_index (split l TAB) 1); cbn [receiver bind]; [discriminate|].
  intros E. injection E as <-. now apply setProperty_proto.
Qed.

Lemma forEachRemote_proto (ls : list string) (m m' : gmap string jsval) :
  m !! "__proto__" = None ->
  parsers.forEachRemote m ls = Return m' -> m' !! "__proto__" = None.
Proof.
  revert m. induction ls as [|l ls IH]; intros m H; simpl.
  - intros E. injection E as <-. exact H.
  - destruct (parsers.remotesStep m l) as [m1|] eqn:E; simpl; [|discriminate].
    apply IH. exact (remotesStep_proto m m1 l H E).
Qed.

(** X15: no text makes [parsers.remotes] return a mapping that binds the
    name [__proto__]. *)
Theorem remotes_never_binds_proto (output : string) (m : gmap string jsval) :
  parsers.remotes output = Return m -> m !! "__proto__" = None.
Proof. apply forEachRemote_proto. reflexivity. Qed.

Lemma remotes_never_binds_proto_witness :
  exists m, parsers.remotes remotesProtoExample = Return m
            /\ m !! "__proto__" = None.
Proof.
  exists ∅. split; [reflexivity|].
  apply (remotes_never_binds_proto remotesProtoExample ∅). reflexivity.
Defined.

Lemma remotesStep_return (m m' : gmap string jsval) (l : string) :
  parsers.remotesStep m l = Return m' ->
  m' = m
  \/ exists t,
       firstField l <> "" /\ afterFirst tab l = Some t
       /\ m' = setProperty m (firstField l) (str (upTo " " (upTo tab t))).
Proof.
  unfold parsers.remotesStep.
  change TAB with (String tab ""). rewrite split_char.
  cbn [at_index nth_error]. fold (firstField l).
  destruct (firstField l) as [|c f] eqn:F; cbn [truthy].
  - intros E. injection E as <-. now left.
  - destruct (afterFirst tab l) as [t|]; cbn [at_index nth_error receiver bind];
      [|discriminate].
    rewrite split_char. cbn [at_index nth_error receiver bind propertyKey].
    rewrite split_char. cbn [at_index nth_error].
    intros E. injection E as <-. right. exists t.
    split; [discriminate|]. split; reflexivity.
Qed.

Lemma lookup_setProperty_Some (m : gmap string jsval) (k k' : string)
    (v v' : jsval) :
  setProperty m k v !! k' = Some v' ->
  (k' = k /\ v' = v) \/ m !! k' = Some v'.
Proof.
  unfold setProperty. destruct (decide (k = "__proto__")); [auto|].
  destruct (decide (k = k')) as [->|Hne].
  - rewrite lookup_insert_eq. intros E. injection E as <-. auto.
  - rewrite lookup_insert_ne by exact Hne. auto.
Qed.

Lemma forEachRemote_bindings (ls : list string) (m m' : gmap string jsval)
    (k : string) (v : jsval) :
  parsers.forEachRemote m ls = Return m' ->
  m' !! k = Some v ->
  m !! k = Some v
  \/ exists l t,
       In l ls /\ firstField l = k /\ k <> ""
       /\ afterFirst tab l = Some t /\ v = str (upTo " " (upTo tab t)).
Proof.
  revert m. induction ls as [|l ls IH]; intros m; simpl.
  - intros E. injection E as <-. auto.
  - destruct (parsers.remotesStep m l) as [m1|] eqn:E; simpl; [|discriminate].
    intros R Hk. destruct (IH m1 R Hk) as [H|(l' & t & Hin & H)].
    + apply remotesStep_return in E as [->|(t & Hf & Ht & ->)]; [auto|].
      apply lookup_setProperty_Some in H as [[-> ->]|H]; [|auto].
      right. exists l, t. auto.
    + right. exists l', t. auto.
Qed.

(** X16: every binding of the mapping comes from a line of the text.  A
    name bound by [parsers.remotes] is the non-empty first tab-separated
    field of some line, and its value is the second field of that line up
    to its first space. *)
Theorem remotes_bindings_from_lines
    (output k : string) (v : jsval) (m : gmap string jsval) :
  parsers.remotes output = Return m ->
  m !! k = Some v ->
  exists l t,
    In l (split output LF) /\ firstField l = k /\ k <> ""
    /\ afterFirst tab l = Some t /\ v = str (upTo " " (upTo tab t)).
Proof.
  intros R Hk.
  destruct (forEachRemote_bindings _ _ _ k v R Hk) as [H|H]; [|exact H].
  rewrite lookup_empty in H. discriminate.
Qed.

Lemma remotes_bindings_from_lines_witness :
  exists l t,
    In l (split remotesExample LF) /\ firstField l = "origin" /\ "origin" <> ""
    /\ afterFirst tab l = Some t
    /\ str "https://example.com/b.git" = str (upTo " " (upTo tab t)).
Proof.
  apply (remotes_bindings_from_lines remotesExample "origin"
           (str "https://example.com/b.git")
           (<["origin" := str "https://example.com/b.git"]> ∅)).
  - vm_compute. reflexivity.
  - reflexivity.
Defined.


(** ** [parsers.status] on two texts joined by a line feed *)

Lemma splitGo_app_char (c : ascii) (a b cur : string) :
  splitGo (String c "") (a +:+ String c b) 0 cur
  = splitGo (String c "") a 0 cur ++ splitGo (String c "") b 0 "".
Proof.
  revert cur. induction a as [|x a IH]; intros cur.
  - change ("" +:+ String c b) with (String c b).
    cbn [splitGo startsWith String.length Nat.sub].
    now rewrite Ascii.eqb_refl.
  - rewrite sapp_cons. cbn [splitGo startsWith String.length Nat.sub].
    destruct (Ascii.eqb x c); cbn [andb]; rewrite IH; reflexivity.
Qed.

Lemma split_app_char (c : ascii) (a b : string) :
  split (a +:+ String c b) (String c "")
  = split a (String c "") ++ split b (String c "").
Proof. apply splitGo_app_char. Qed.

(** X17: the status of two texts joined by a line feed is, bucket by
    bucket, the entries of the first text followed by those of the second. *)
Theorem status_app (a b : string) :
  parsers.status (a +:+ LF +:+ b)
  = StatusResult
      (st_staged (parsers.status a) ++ st_staged (parsers.status b))
      (st_unstaged (parsers.status a) ++ st_unstaged (parsers.status b))
      (st_untracked (parsers.status a) ++ st_untracked (parsers.status b)).
Proof.
  unfold parsers.status.
  change (map (fun s => (substring s 0 2, substringFrom s 3))) with (map cut).
  change (a +:+ LF +:+ b) with (a +:+ String "010" b).
  change LF with (String "010"%char "").
  rewrite split_app_char, !status_fold.
  cbn [st_staged st_unstaged st_untracked app].
  now rewrite !List.filter_app, !map_app.
Qed.

(** ** [parsers.log] on values that need no repair *)

Lemma search_lit_absent (c : ascii) (s : string) (pos : nat) :
  mem c s = false -> search (Lit c) s pos = None.
Proof.
  revert pos. induction s as [|x s IH]; intros pos H; [reflexivity|].
  simpl in H. apply orb_false_iff in H as [Hx Hs].
  cbn [search]. unfold matchAt. cbn [run]. rewrite Hx. now apply IH.
Qed.

Lemma substringFrom_0 (s : string) : substringFrom s 0 = s.
Proof.
  unfold substringFrom. rewrite substring_0. apply substring_all.
Qed.

Lemma replaceG_lit_absent (c : ascii) (s tpl : string) :
  mem c s = false -> replaceG s (Lit c) tpl = s.
Proof.
  intros H. unfold replaceG, matches. cbn [allMatches].
  rewrite (search_lit_absent c s 0 H). cbn [replaceGo].
  apply substringFrom_0.
Qed.

Lemma getSubstitution_plain (matched before after : string)
    (caps : list (option string)) (tpl : string) :
  mem "$" tpl = false -> getSubstitution matched before after caps tpl = tpl.
Proof.
  induction tpl as [|c t IH]; [reflexivity|].
  intros H. simpl in H. apply orb_false_iff in H as [Hc Ht].
  cbn [getSubstitution]. rewrite Hc. now rewrite (IH Ht).
Qed.

(** Replacing the first occurrence of a text by itself changes nothing,
    as long as the text holds no dollar sign. *)
Lemma replace_same (s p : string) :
  mem "$" p = false -> replace s p p = s.
Proof.
  intros H. unfold replace.
  destruct (firstIndex s p 0) as [i|] eqn:E; [|reflexivity].
  apply firstIndex_sound in E as (a & b & -> & ->).
  rewrite (getSubstitution_plain _ _ _ _ _ H).
  cbn [Nat.add]. rewrite substring_prefix.
  replace (a +:+ p +:+ b) with ((a +:+ p) +:+ b) at 1
    by now rewrite sapp_assoc.
  rewrite <- slength_app, substringFrom_app. reflexivity.
Qed.

Lemma logRepair_plain (log h : string) :
  plainValue h -> parsers.logRepair log h = log.
Proof.
  intros [Hq Hd]. unfold parsers.logRepair. fold (valueOf h).
  unfold reQuote. rewrite (replaceG_lit_absent dq _ _ Hq).
  now apply replace_same.
Qed.

Lemma logRepair_fold_plain (hs : list string) (log : string) :
  Forall plainValue hs -> fold_left parsers.logRepair hs log = log.
Proof.
  intros H. induction H as [|h hs Hh _ IH]; [reflexivity|].
  cbn [fold_left]. now rewrite (logRepair_plain log h Hh).
Qed.

(** X18: when none of the values found in the text holds a double quote or
    a dollar sign, the repair pass of [parsers.log] changes nothing: the
    result is the decoding of the output without its last code unit, put
    between brackets. *)
Theorem log_plain_values (output : string) :
  Forall plainValue (keyValueTexts (wrapped output)) ->
  parsers.log output = JSON.parse (wrapped output).
Proof.
  intros H. unfold parsers.log. fold (wrapped output).
  unfold keyValueTexts in H.
  destruct (matchG (wrapped output) reKeyValue) as [hs|]; [|reflexivity].
  rewrite logRepair_fold_plain; [reflexivity|].
  now apply List.Forall_rev.
Qed.

Lemma log_plain_values_witness :
  parsers.log (dquote "{'commit': '1f0c3a9','message': 'first'},")
  = JSON.parse (dquote "[{'commit': '1f0c3a9','message': 'first'}]").
Proof.
  apply (log_plain_values (dquote "{'commit': '1f0c3a9','message': 'first'},")).
  vm_compute. repeat constructor.
Defined.

(** ** [parsers.remotes], the last line that names a remote *)

(** X13: the last line that names a remote decides its URL.  When every
    line can be taken, a line reads [name], a tab, [url], a space and more
    text, and no later line has [name] as its first field, the mapping
    binds [name] to [url], whatever earlier lines bound it to.  The name
    is not empty and is not [__proto__]. *)
Theorem remotes_last_line_wins
    (output name url tail : string) (pre post : list string) :
  split output LF = pre ++ (name +:+ TAB +:+ url +:+ " " +:+ tail) :: post ->
  name <> "" -> mem tab name = false -> name <> "__proto__" ->
  mem " " url = false -> mem tab url = false ->
  Forall wellFormed (pre ++ post) ->
  Forall (fun l => firstField l <> name) post ->
  exists m, parsers.remotes output = Return m /\ m !! name = Some (str url).
Proof.
  intros Hs Hn Hnt Hp Hus Hut W Hpost.
  apply Forall_app in W as [W1 W2].
  unfold parsers.remotes. rewrite Hs, forEachRemote_app.
  destruct (forEachRemote_wellFormed pre ∅ W1) as [m1 ->]. simpl.
  rewrite (remotesStep_named m1 name url tail Hn Hnt Hus Hut). simpl.
  destruct (forEachRemote_keeps name post (setProperty m1 name (str url)) W2 Hpost)
    as (m2 & -> & E).
  exists m2. split; [reflexivity|].
  rewrite E. now apply lookup_setProperty_eq.
Qed.

Lemma remotes_last_line_wins_witness :
  exists m, parsers.remotes remotesExample = Return m
            /\ m !! "origin" = Some (str "https://example.com/b.git").
Proof.
  apply (remotes_last_line_wins remotesExample "origin"
           "https://example.com/b.git" "(push)"
           [("origin" +:+ TAB +:+ "https://example.com/a.git (fetch)")] [""]).
  - reflexivity.
  - discriminate.
  - reflexivity.
  - discriminate.
  - reflexivity.
  - reflexivity.
  - constructor; [right; reflexivity|]. constructor; [left; reflexivity|].
    constructor.
  - repeat constructor. discriminate.
Defined.
